(** * rayopt: the optical train [System] of rayopt/system.py

    A shallow embedding of [class System(list)] and of the structural
    algorithms it carries: the role accessors, [reverse], [rescale],
    [resize_convex] / [fix_sizes], [surfaces_cut] and the paraxial matrix
    chain.

    Modelling conventions.
    - Python floats.  A finite binary64 value is a rational number, and
      where the train only stores a number, hands it on, compares it or takes
      a [max], the number is a [Qc] (canonical rationals with Leibniz
      equality).  Where a result of the train depends on rounding, nothing
      is idealised: the [scale] of the train and the factor of [rescale] are
      binary64 floats ([PrimFloat]) and are divided as such, and the matrix
      product [np.dot] of numpy is a collaborator of which nothing is
      assumed.  The offsets of [surfaces_cut] are added with the sum of
      [Qc]; no property below rests on a law of this sum.
    - A train is the list of the states of its elements.  The train is taken
      to hold every element object once, so that mutating one element in
      place is an update of the list at that element's position.
    - A Python exception is a value of [exn]; an operation that may raise
      returns a [result].  Where an exception can follow mutations that
      persist, the state reached is returned besides the exception.
    - The element and material classes live in other modules of the
      repository; their attributes are modelled from the interface the
      specification lists, their methods are the fields of the class
      [Collaborators]. *)

From Stdlib Require Import Floats.
From Stdlib Require Import QArith Qcanon ZArith Ascii String.
From stdpp Require Import base numbers list option strings.

Local Open Scope Qc_scope.

(** ** Python values and exceptions *)

Inductive exn : Set :=
  | AssertionError
  | IndexError
  | ValueError
  | AttributeError
  | ZeroDivisionError.

Inductive result (A : Type) : Type :=
  | Ok (a : A)
  | Raise (e : exn).

Arguments Ok {A} a.
Arguments Raise {A} e.

#[global] Instance exn_eq_dec : EqDecision exn.
Proof. solve_decision. Defined.

#[global] Instance result_eq_dec {A : Type} `{EqDecision A} :
  EqDecision (result A).
Proof. solve_decision. Defined.

#[global] Instance result_ret : MRet result := λ A a, Ok a.
#[global] Instance result_bind : MBind result := λ A B f r,
  match r with
  | Ok a => f a
  | Raise e => Raise e
  end.

(** A keyword argument that the caller may leave out. *)
Inductive arg (A : Type) : Type :=
  | Omitted
  | Given (a : A).

Arguments Omitted {A}.
Arguments Given {A} a.

Definition arg_default {A : Type} (d : A) (a : arg A) : A :=
  match a with
  | Omitted => d
  | Given x => x
  end.

(** [max(a, b)] of Python: the first argument unless the second is larger. *)
Definition py_max (a b : Qc) : Qc := if decide (a < b) then b else a.

(** ** Python list indexing and slicing *)

(** A negative index counts from the end. *)
Definition wrap_index (n : nat) (i : Z) : Z :=
  if decide (i < 0)%Z then (i + Z.of_nat n)%Z else i.

(** [l[i]] *)
Definition getitem {A : Type} (l : list A) (i : Z) : result A :=
  let j := wrap_index (length l) i in
  if decide (j < 0)%Z then Raise IndexError
  else match l !! Z.to_nat j with
       | Some x => Ok x
       | None => Raise IndexError
       end.

(** [l[i] = x] *)
Definition setitem {A : Type} (l : list A) (i : Z) (x : A) : result (list A) :=
  let j := wrap_index (length l) i in
  if decide (j < 0)%Z then Raise IndexError
  else if decide (Z.to_nat j < length l)%nat then Ok (<[Z.to_nat j := x]> l)
       else Raise IndexError.

(** A slice bound, wrapped and clamped to [0, n]. *)
Definition slice_bound (n : nat) (i : Z) : nat :=
  Z.to_nat (Z.min (Z.max (wrap_index n i) 0) (Z.of_nat n)).

(** [l[start:stop]] *)
Definition slice {A : Type} (l : list A) (start stop : Z) : list A :=
  let a := slice_bound (length l) start in
  let b := slice_bound (length l) stop in
  take (b - a) (drop a l).

(** ** Materials and elements *)

(** Modelled from the spec: the material objects of rayopt/material.py, which
    expose [solid], [nd] and [vd]. *)
Record Material : Type := mkMaterial {
  solid : bool;
  nd : Qc;
  vd : Qc
}.

#[global] Instance Material_eq_dec : EqDecision Material.
Proof. solve_decision. Defined.

(** The classes the train tests with [isinstance]; [Surface] stands for any
    other element class. *)
Inductive ElementClass : Set :=
  | Object
  | Aperture
  | Image
  | Surface.

#[global] Instance ElementClass_eq_dec : EqDecision ElementClass.
Proof. solve_decision. Defined.

(** Modelled from the spec: the element objects of rayopt/elements.py with the
    attributes the train reads and writes.  [material] and [curvature] are
    optional attributes: [None] is an element without the attribute
    ([hasattr] is false), [material = Some None] is the attribute holding
    Python's [None]. *)
Record Element : Type := mkElement {
  cls : ElementClass;
  finite : bool;
  distance : Qc;
  radius : Qc;
  angular_radius : Qc;
  curvature : option Qc;
  material : option (option Material)
}.

#[global] Instance Element_eq_dec : EqDecision Element.
Proof. solve_decision. Defined.

Definition isinstance (e : Element) (c : ElementClass) : bool :=
  bool_decide (cls e = c).

Definition set_cls (c : ElementClass) (e : Element) : Element :=
  mkElement c (finite e) (distance e) (radius e) (angular_radius e)
    (curvature e) (material e).

Definition set_finite (f : bool) (e : Element) : Element :=
  mkElement (cls e) f (distance e) (radius e) (angular_radius e)
    (curvature e) (material e).

(** [e.distance = d] *)
Definition set_distance (d : Qc) (e : Element) : Element :=
  mkElement (cls e) (finite e) d (radius e) (angular_radius e)
    (curvature e) (material e).

(** [e.radius = r] *)
Definition set_radius (r : Qc) (e : Element) : Element :=
  mkElement (cls e) (finite e) (distance e) r (angular_radius e)
    (curvature e) (material e).

(** [e.material = m], where [m] may be Python's [None] *)
Definition set_material (m : option Material) (e : Element) : Element :=
  mkElement (cls e) (finite e) (distance e) (radius e) (angular_radius e)
    (curvature e) (Some m).

(** [getattr(e, "material", None)] *)
Definition material_or_None (e : Element) : option Material :=
  match material e with
  | Some m => m
  | None => None
  end.

(** [getattr(e, "curvature", 0)] *)
Definition curvature_or_0 (e : Element) : Qc :=
  match curvature e with
  | Some c => c
  | None => 0
  end.

(** ** 2x2 matrices and point arrays *)

Record Matrix : Type := mkMatrix {
  m11 : Qc; m12 : Qc;
  m21 : Qc; m22 : Qc
}.

#[global] Instance Matrix_eq_dec : EqDecision Matrix.
Proof. solve_decision. Defined.

(** [np.eye(2)] *)
Definition eye2 : Matrix := mkMatrix 1 0 0 1.

(** The product of two 2x2 matrices in exact arithmetic: what [np.dot(a, b)]
    returns when no entry needs rounding. *)
Definition exact_dot (a b : Matrix) : Matrix :=
  mkMatrix (m11 a * m11 b + m12 a * m21 b) (m11 a * m12 b + m12 a * m22 b)
           (m21 a * m11 b + m22 a * m21 b) (m21 a * m12 b + m22 a * m22 b).

(** A row of an (n, 3) array of points. *)
Record Point : Type := mkPoint {
  x_of : Qc;
  y_of : Qc;
  z_of : Qc
}.

(** An outline that [surfaces_cut] yields: the pair [(x, z)] of an open
    curve, or the 2-row array of a closed ring, given by its rows. *)
Inductive Outline : Type :=
  | OpenCurve (x z : list Qc)
  | ClosedRing (x z : list Qc).

(** ** The collaborators of the train *)

(** The methods of the elements, the table of wavelengths and the matrix
    product of numpy, which the train calls and does not define. *)
Class Collaborators : Type := {
  (** [material.fraunhofer], the table of spectral lines *)
  fraunhofer : ascii → Qc;
  (** the attributes a constructor gives an element of a class when the
      caller passes none *)
  Element_defaults : ElementClass → Element;
  (** [e.reverse()] *)
  Element_reverse : Element → Element;
  (** [e.rescale(scale)] *)
  Element_rescale : float → Element → Element;
  (** [e.refractive_index(l)] *)
  Element_refractive_index : Element → Qc → Qc;
  (** [e.paraxial_matrix(n, l)], the pair [(n', M)] *)
  Element_paraxial_matrix : Element → Qc → Qc → Qc * Matrix;
  (** [e.surface_cut(axis, points)] *)
  Element_surface_cut : Element → Z → Z → list Point;
  (** [e.transform_from(xyz)] *)
  Element_transform_from : Element → list Point → list Point;
  (** [np.dot(a, b)] on 2x2 arrays of floats, rounded as numpy rounds *)
  np_dot : Matrix → Matrix → Matrix
}.

(** ** The train *)

Record System : Type := mkSystem {
  items : list Element;
  description : string;
  scale : float;
  wavelengths : list Qc
}.

Definition set_items (l : list Element) (s : System) : System :=
  mkSystem l (description s) (scale s) (wavelengths s).

(** [1e-3]: the binary64 value that the literal denotes. *)
Definition milli : float := 0x1.0624dd2f1a9fcp-10%float.

Section operations.
Context {ops : Collaborators}.

(** ** Construction (system.py 28-35) *)

(** [Object(finite=False)], [Aperture()] and [Image()]: an instance of the
    class with the constructor's defaults. *)
Definition new_Object (fin : bool) : Element :=
  set_finite fin (set_cls Object (Element_defaults Object)).

Definition new_Aperture : Element := set_cls Aperture (Element_defaults Aperture).

Definition new_Image : Element := set_cls Image (Element_defaults Image).

(** [[fraunhofer[i] for i in "dCF"]] *)
Definition default_wavelengths : list Qc :=
  fraunhofer <$> ["d"; "C"; "F"]%char.

(** [System.__init__].  The parameter [elements] defaults to the empty list
    and may be passed as Python's [None]. *)
Definition System_init (elements : arg (option (list Element)))
    (description : arg string) (scale : arg float)
    (wavelengths : arg (list Qc)) : System :=
  let elements := arg_default (Some []) elements in
  let elements :=
    match elements with
    | None => [new_Object false; new_Aperture; new_Image]
    | Some l => l
    end in
  mkSystem elements
    (arg_default EmptyString description)
    (arg_default milli scale)
    (arg_default default_wavelengths wavelengths).

(** ** Role accessors (system.py 37-71) *)

(** The getter of [object]. *)
Definition object (s : System) : result Element :=
  e ← getitem (items s) 0;
  if isinstance e Object then Ok e else Raise AssertionError.

(** The setter of [object]. *)
Definition set_object (value : Element) (s : System) : result System :=
  if isinstance value Object then
    e ← getitem (items s) 0;
    if isinstance e Object then
      l ← setitem (items s) 0 value;
      Ok (set_items l s)
    else Ok (set_items (value :: items s) s)
  else Raise AssertionError.

(** The getter of [aperture]: the loop returns at the first match and the
    function falls through to [None]. *)
Fixpoint first_Aperture (l : list Element) : option Element :=
  match l with
  | [] => None
  | el :: l' => if isinstance el Aperture then Some el else first_Aperture l'
  end.

Definition aperture (s : System) : option Element := first_Aperture (items s).

(** [l.index(x)]: the first position whose item equals [x].  [x] is a Python
    value, [None] among them, and no element equals [None]. *)
Fixpoint list_index (x : option Element) (l : list Element) : result nat :=
  match l with
  | [] => Raise ValueError
  | e :: l' =>
      if decide (Some e = x) then Ok 0%nat
      else i ← list_index x l'; Ok (S i)
  end.

Definition aperture_index (s : System) : result nat :=
  list_index (aperture s) (items s).

(** The getter of [image]. *)
Definition image (s : System) : result Element :=
  e ← getitem (items s) (-1);
  if isinstance e Image then Ok e else Raise AssertionError.

(** The setter of [image]. *)
Definition set_image (value : Element) (s : System) : result System :=
  if isinstance value Image then
    e ← getitem (items s) (-1);
    if isinstance e Image then
      l ← setitem (items s) (-1) value;
      Ok (set_items l s)
    else Ok (set_items (items s ++ [value]) s)
  else Raise AssertionError.

(** ** reverse (system.py 73-87) *)

(** [d = 0.; for e in self: d, e.distance = e.distance, d] *)
Fixpoint shift_distances (d : Qc) (l : list Element) : list Element :=
  match l with
  | [] => []
  | e :: l' => set_distance d e :: shift_distances (distance e) l'
  end.

(** [m = None; for e in ...: if hasattr(e, "material"): m, e.material =
    e.material, m], along the order of [l]. *)
Fixpoint shift_materials (m : option Material) (l : list Element)
    : list Element :=
  match l with
  | [] => []
  | e :: l' =>
      match material e with
      | Some m' => set_material m e :: shift_materials m' l'
      | None => e :: shift_materials m l'
      end
  end.

(** The material loop runs over [self[::-1]], a reversed copy of the list:
    the elements are updated where they stand. *)
Definition reverse (s : System) : System :=
  let l := rev (items s) in
  let l := Element_reverse <$> l in
  let l := shift_distances 0 l in
  let l := rev (shift_materials None (rev l)) in
  set_items l s.

(** ** rescale (system.py 89-94) *)

(** [scale = self.scale/1e-3] when the factor is [None], then
    [self.scale /= scale] and [e.rescale(scale)] for every element.  Both
    divisions are those of binary64.  Dividing a float by a zero of either
    sign raises, before anything is written; [1e-3] is not zero. *)
Definition rescale (factor : option float) (s : System) : result System :=
  let factor :=
    match factor with
    | None => (scale s / milli)%float
    | Some f => f
    end in
  if (factor =? 0)%float then Raise ZeroDivisionError
  else Ok (mkSystem (Element_rescale factor <$> items s) (description s)
             (scale s / factor)%float (wavelengths s)).

(** ** resize_convex and fix_sizes (system.py 122-143) *)

(** The loop variables [pending] and [c0]; [pending] refers to an element of
    the train, by position. *)
Record Pending : Type := mkPending {
  pending : option nat;
  c0 : option Qc
}.

(** [c0 > 0], false of [None] *)
Definition is_positive (c : option Qc) : bool :=
  match c with
  | Some c => bool_decide (0 < c)
  | None => false
  end.

(** [x.radius = max(x.radius, y.radius)] for the elements at [i] and [j] *)
Definition grow_radius (i j : nat) (l : list Element) : list Element :=
  match l !! i, l !! j with
  | Some x, Some y => <[i := set_radius (py_max (radius x) (radius y)) x]> l
  | _, _ => l
  end.

(** The body of the loop for the element at position [i].  The result is the
    train, the loop variables, and the exception if one was raised. *)
Definition resize_step (i : nat) (st : list Element * Pending)
    : list Element * Pending * option exn :=
  let '(l, p) := st in
  match l !! i with
  | None => (l, p, None)
  | Some el =>
      match material el with
      | None => (l, p, None)
      | Some mat =>
          let c := curvature_or_0 el in
          match pending p with
          | Some j =>
              let l := if decide (c < 0) then grow_radius i j l else l in
              let l := if is_positive (c0 p) then grow_radius j i l else l in
              match mat with
              | None => (l, mkPending None (c0 p), Some AttributeError)
              | Some mat =>
                  if solid mat then (l, mkPending (Some i) (Some c), None)
                  else (l, mkPending None (c0 p), None)
              end
          | None =>
              match mat with
              | None => (l, p, Some AttributeError)
              | Some mat =>
                  if solid mat then (l, mkPending (Some i) (Some c), None)
                  else (l, p, None)
              end
          end
      end
  end.

Fixpoint resize_loop (idx : list nat) (st : list Element * Pending)
    : list Element * option exn :=
  match idx with
  | [] => (fst st, None)
  | i :: idx' =>
      match resize_step i st with
      | (l, p, None) => resize_loop idx' (l, p)
      | (l, _, Some e) => (l, Some e)
      end
  end.

(** [for el in self[1:-1]]: the positions of the slice. *)
Definition interior (l : list Element) : list nat :=
  slice (seq 0 (length l)) 1 (-1).

(** The train after the call, and the exception if the call raised. *)
Definition resize_convex (s : System) : System * option exn :=
  let '(l, e) := resize_loop (interior (items s))
                   (items s, mkPending None None) in
  (set_items l s, e).

Definition fix_sizes (s : System) : System * option exn := resize_convex s.

(** ** surfaces_cut (system.py 145-174) *)

(** [xyz[:, axis]]: the column of an (n, 3) array. *)
Definition column (axis : Z) : result (Point → Qc) :=
  let j := wrap_index 3 axis in
  if decide (j = 0)%Z then Ok x_of
  else if decide (j = 1)%Z then Ok y_of
  else if decide (j = 2)%Z then Ok z_of
  else Raise IndexError.

(** [z += z0], in place on the column [xyz[:, 2]] *)
Definition shift_z (z0 : Qc) (p : Point) : Point :=
  mkPoint (x_of p) (y_of p) (z_of p + z0).

(** The ring [np.c_[(px, pz), cu, (x[::-1], z[::-1]), cl, (px[0], pz[0])]];
    indexing an empty array raises. *)
Definition close_ring (px pz x z : list Qc) : result Outline :=
  match head x, head px, head pz, head z,
        list.last x, list.last px, list.last pz, list.last z with
  | Some x0, Some px0, Some pz0, Some z0, Some xl, Some pxl, Some pzl, Some zl =>
      let cl := if decide (x0 < px0) then (x0, pz0) else (px0, z0) in
      let cu := if decide (pxl < xl) then (xl, pzl) else (pxl, zl) in
      Ok (ClosedRing (px ++ [fst cu] ++ rev x ++ [fst cl] ++ [px0])
                     (pz ++ [snd cu] ++ rev z ++ [snd cl] ++ [pz0]))
  | _, _, _, _, _, _, _, _ => Raise IndexError
  end.

(** [yield o], followed by what the rest of the generator does *)
Definition yield {A : Type} (o : A) (rest : list A * option exn)
    : list A * option exn :=
  (o :: fst rest, snd rest).

(** The generator as the list of the outlines it yields, and the exception
    that ends it if one is raised. *)
Fixpoint cut_loop (axis points : Z) (z0 : Qc)
    (pending : option (list Qc * list Qc)) (l : list Element)
    : list Outline * option exn :=
  match l with
  | [] => ([], None)
  | e :: l' =>
      let z0 := z0 + distance e in
      let xyz := Element_transform_from e (Element_surface_cut e axis points) in
      match column axis with
      | Raise ex => ([], Some ex)
      | Ok col =>
          (* x and z are views of xyz: x shares the shift when axis is 2 *)
          let xyz := shift_z z0 <$> xyz in
          let x := col <$> xyz in
          let z := z_of <$> xyz in
          match material_or_None e with
          | None => yield (OpenCurve x z) (cut_loop axis points z0 pending l')
          | Some mat =>
              let pending' := if solid mat then Some (x, z) else None in
              match pending with
              | Some (px, pz) =>
                  match close_ring px pz x z with
                  | Raise ex => ([], Some ex)
                  | Ok ring => yield ring (cut_loop axis points z0 pending' l')
                  end
              | None =>
                  if solid mat then cut_loop axis points z0 pending' l'
                  else yield (OpenCurve x z)
                         (cut_loop axis points z0 pending' l')
              end
          end
      end
  end.

Definition surfaces_cut (axis points : Z) (s : System)
    : list Outline * option exn :=
  cut_loop axis points 0 None (items s).

(** ** The paraxial matrix chain (system.py 189-199) *)

(** [stop or len(self)]: [None] and [0] are both false. *)
Definition stop_or_len (stop : option Z) (n : nat) : Z :=
  match stop with
  | None => Z.of_nat n
  | Some z => if decide (z = 0)%Z then Z.of_nat n else z
  end.

(** The elements the loop of [paraxial_matrices] visits. *)
Definition paraxial_range (start : Z) (stop : option Z) (s : System)
    : list Element :=
  slice (items s) start (stop_or_len stop (length (items s))).

(** [for e in ...: n, m = e.paraxial_matrix(n, l); yield n, m] *)
Fixpoint chain (l n : Qc) (es : list Element) : list (Qc * Matrix) :=
  match es with
  | [] => []
  | e :: es' =>
      let r := Element_paraxial_matrix e n l in
      r :: chain l (fst r) es'
  end.

(** The generator as the list of the pairs it yields; it raises, before it
    yields, when [self[start - 1]] does. *)
Definition paraxial_matrices (l : Qc) (start : Z) (stop : option Z)
    (s : System) : result (list (Qc * Matrix)) :=
  e ← getitem (items s) (start - 1);
  Ok (chain l (Element_refractive_index e l) (paraxial_range start stop s)).

(** [m = np.eye(2); for n, mi in ...: m = np.dot(mi, m)] *)
Definition paraxial_matrix (l : Qc) (start : Z) (stop : option Z)
    (s : System) : result Matrix :=
  ms ← paraxial_matrices l start stop s;
  Ok (foldl (λ m r, np_dot (snd r) m) eye2 ms).

(** ** Auxiliary notions *)

(** The index with which the chain calls the element that yields the pair
    at position [i] of [ms]: the seed for the first, and for every other one
    the index of the pair before it. *)
Definition index_before (seed : Qc) (ms : list (Qc * Matrix)) (i : nat) : Qc :=
  match i with
  | O => seed
  | S j => default seed (fst <$> ms !! j)
  end.

(** [np_dot] is associative and has [eye2] as its unit, as the product of
    exact arithmetic is and the rounded product of binary64 is not. *)
Definition exact_product : Prop :=
  (∀ a b c, np_dot a (np_dot b c) = np_dot (np_dot a b) c)
  ∧ (∀ a, np_dot eye2 a = a)
  ∧ (∀ a, np_dot a eye2 = a).

(** The index that the chain hands on after the elements [es]. *)
Fixpoint final_index (l n : Qc) (es : list Element) : Qc :=
  match es with
  | [] => n
  | e :: es' => final_index l (fst (Element_paraxial_matrix e n l)) es'
  end.

End operations.

(** An outline is an open curve, and not a closed ring. *)
Definition is_open (o : Outline) : bool :=
  match o with
  | OpenCurve _ _ => true
  | ClosedRing _ _ => false
  end.

(** [e'] is [e] with a radius that is not smaller. *)
Definition grown (e e' : Element) : Prop :=
  e' = set_radius (radius e') e ∧ radius e ≤ radius e'.

(** Both loops of [reverse] hand a value down a list: each element that
    carries the attribute receives the value of the carrier before it.
    [get] reads the attribute of a carrier and [set] writes it. *)
Section shift_definitions.
Context {E V : Type} (get : E → option V) (set : V → E → E).

Fixpoint gshift (v : V) (l : list E) : list E :=
  match l with
  | [] => []
  | e :: l' =>
      match get e with
      | Some w => set v e :: gshift w l'
      | None => e :: gshift v l'
      end
  end.

(** The value of the first carrier of [l], or [v]. *)
Fixpoint first_val (v : V) (l : list E) : V :=
  match l with
  | [] => v
  | e :: l' =>
      match get e with
      | Some w => w
      | None => first_val v l'
      end
  end.

(** The value of the last carrier of [l], or [v]. *)
Fixpoint last_val (v : V) (l : list E) : V :=
  match l with
  | [] => v
  | e :: l' =>
      match get e with
      | Some w => last_val w l'
      | None => last_val v l'
      end
  end.

(** The shift in the other direction: each carrier receives the value of
    the carrier after it. *)
Fixpoint bshift (v : V) (l : list E) : list E :=
  match l with
  | [] => []
  | e :: l' =>
      match get e with
      | Some _ => set (first_val v l') e :: bshift v l'
      | None => e :: bshift v l'
      end
  end.

(** [l] with the value [v] written to its first carrier. *)
Fixpoint set_first (v : V) (l : list E) : list E :=
  match l with
  | [] => []
  | e :: l' =>
      match get e with
      | Some _ => set v e :: l'
      | None => e :: set_first v l'
      end
  end.

(** [l] with the value [v] written to its last carrier. *)
Definition set_last (v : V) (l : list E) : list E :=
  rev (set_first v (rev l)).

End shift_definitions.

(** The train with the distance 0 on its first element. *)
Definition zero_first_distance (l : list Element) : list Element :=
  set_first (λ e, Some (distance e)) set_distance 0 l.

(** The train with [None] in the material attribute of the last element that
    has one. *)
Definition clear_last_material (l : list Element) : list Element :=
  set_last material set_material None l.

(** ** A sample of collaborators and of trains

    One implementation of the elements' methods, in the usual paraxial
    conventions, and a few trains: the inputs of the examples below. *)

Definition qc (n : Z) (d : positive) : Qc := Q2Qc (n # d).

(** The index behind the element: that of its material, or 1. *)
Definition sample_index (e : Element) : Qc :=
  match material_or_None e with
  | Some m => nd m
  | None => 1
  end.

(** A gap of [distance], then refraction from index [n0] at the surface. *)
Definition sample_paraxial_matrix (e : Element) (n0 l : Qc) : Qc * Matrix :=
  let n := match material_or_None e with
           | Some m => nd m
           | None => n0
           end in
  let mu := n0 / n in
  let p := curvature_or_0 e * (mu - 1) in
  let d := distance e in
  (n, mkMatrix 1 d p (d * p + mu)).

Definition sample_reverse (e : Element) : Element :=
  mkElement (cls e) (finite e) (distance e) (radius e) (angular_radius e)
    (Qcopp <$> curvature e) (material e).

(** The rational number that a finite float is; 0 for the others. *)
Definition Qc_of_float (f : float) : Qc :=
  match Prim2SF f with
  | S754_finite sign m e =>
      let v := if decide (0 ≤ e)%Z then Q2Qc (Z.pos m * 2 ^ e # 1)
               else Q2Qc (Z.pos m # Z.to_pos (2 ^ (- e))) in
      if sign then - v else v
  | _ => 0
  end.

(** Lengths are multiplied by the factor and the curvature is divided by
    it, exactly. *)
Definition sample_rescale (f : float) (e : Element) : Element :=
  let q := Qc_of_float f in
  mkElement (cls e) (finite e) (distance e * q) (radius e * q)
    (angular_radius e) ((λ c, c / q) <$> curvature e) (material e).

(** The straight cut of the aperture disc: [points] samples of the chosen
    axis from [-radius] to [radius]. *)
Definition sample_surface_cut (e : Element) (axis points : Z) : list Point :=
  let n := Z.to_nat points in
  (λ i : nat,
     let t := 2 * radius e * Qc_of_Z (Z.of_nat i) / Qc_of_Z (points - 1)
              - radius e in
     if decide (axis = 0)%Z then mkPoint t 0 0 else mkPoint 0 t 0)
  <$> seq 0 n.

#[local] Instance sample : Collaborators := {|
  fraunhofer c :=
    if decide (c = "d"%char) then qc 5876 10000000000
    else if decide (c = "C"%char) then qc 6563 10000000000
    else qc 4861 10000000000;
  Element_defaults c := mkElement c true 0 0 0 None None;
  Element_reverse := sample_reverse;
  Element_rescale := sample_rescale;
  Element_refractive_index e l := sample_index e;
  Element_paraxial_matrix := sample_paraxial_matrix;
  Element_surface_cut := sample_surface_cut;
  Element_transform_from e xyz := xyz;
  np_dot := exact_dot
|}.

Definition glass : Material := mkMaterial true (qc 3 2) (qc 60 1).
Definition flint : Material := mkMaterial true (qc 8 5) (qc 36 1).
Definition air : Material := mkMaterial false 1 0.
Definition dense : Material := mkMaterial true 2 (qc 30 1).

Definition marker (c : ElementClass) (d r : Qc) : Element :=
  mkElement c true d r 0 None None.

Definition surface (d r c : Qc) (m : option Material) : Element :=
  mkElement Surface true d r 0 (Some c) (Some m).

Definition train (l : list Element) : System :=
  mkSystem l EmptyString milli [].

(** Object, aperture, image. *)
Definition markers : System :=
  train [marker Object 0 (qc 5 1); marker Aperture (qc 10 1) (qc 4 1);
         marker Image (qc 20 1) (qc 3 1)].

(** A biconvex lens in air. *)
Definition singlet : System :=
  train [marker Object 0 (qc 5 1);
         surface (qc 10 1) (qc 8 1) (qc 1 50) (Some glass);
         surface (qc 4 1) (qc 8 1) (qc (-1) 50) (Some air);
         marker Image (qc 90 1) (qc 3 1)].

(** A cemented doublet in air, behind a stop. *)
Definition doublet : System :=
  train [marker Object 0 (qc 5 1);
         marker Aperture (qc 5 1) (qc 4 1);
         surface 1 (qc 6 1) (qc 1 40) (Some glass);
         surface (qc 5 1) (qc 7 1) (qc 1 90) (Some flint);
         surface 2 (qc 9 1) 0 (Some air);
         marker Image (qc 80 1) (qc 3 1)].



(** The lens of [singlet], its rear surface holding no material object. *)
Definition singlet_open : System :=
  train [marker Object 0 (qc 5 1);
         surface (qc 10 1) (qc 8 1) (qc 1 50) (Some glass);
         surface (qc 4 1) (qc 8 1) (qc (-1) 50) None;
         marker Image (qc 90 1) (qc 3 1)].

(** Two stops around a lens surface, with neither object nor image. *)
Definition two_stops : System :=
  train [surface 0 (qc 8 1) 0 (Some air);
         marker Aperture 2 (qc 4 1);
         marker Aperture 1 (qc 3 1)].

(** A surface into glass, a flat surface whose material attribute holds
    [None], and a surface into air. *)
Definition relay : System :=
  train [marker Object 0 (qc 5 1);
         surface (qc 10 1) (qc 8 1) (qc 1 50) (Some glass);
         surface (qc 3 1) (qc 8 1) 0 None;
         surface (qc 3 1) (qc 8 1) (qc (-1) 50) (Some air);
         marker Image (qc 90 1) (qc 3 1)].

(** A biconvex lens of index 2 in air.  Every number of the train and of
    its paraxial matrices is a dyadic rational of a few bits, so that
    binary64 computes the matrices and their products without rounding. *)
Definition dyadic_lens : System :=
  train [marker Object 0 (qc 5 1);
         surface (qc 8 1) (qc 8 1) (qc 1 64) (Some dense);
         surface (qc 4 1) (qc 8 1) (qc (-1) 64) (Some air);
         marker Image (qc 64 1) (qc 3 1)].

(** The lens of [dyadic_lens] behind a stop. *)
Definition dyadic_stopped : System :=
  train [marker Object 0 (qc 5 1);
         marker Aperture (qc 2 1) (qc 4 1);
         surface (qc 8 1) (qc 8 1) (qc 1 64) (Some dense);
         surface (qc 4 1) (qc 8 1) (qc (-1) 64) (Some air);
         marker Image (qc 64 1) (qc 3 1)].

(** A surface into the dense glass, a flat surface whose material attribute
    holds [None], and a surface into air; dyadic as [dyadic_lens]. *)
Definition dyadic_relay : System :=
  train [marker Object 0 (qc 5 1);
         surface (qc 8 1) (qc 8 1) (qc 1 64) (Some dense);
         surface (qc 2 1) (qc 8 1) 0 None;
         surface (qc 2 1) (qc 8 1) (qc (-1) 64) (Some air);
         marker Image (qc 64 1) (qc 3 1)].

(** The train of [singlet] in metres: its scale is 1. *)
Definition singlet_metres : System :=
  mkSystem (items singlet) EmptyString 1%float [].

(** The d line. *)
Definition lambda_d : Qc := qc 5876 10000000000.

(** The element at position [i] has a material attribute that holds
    [None]. *)
Definition holds_None (l : list Element) (i : nat) : Prop :=
  material <$> l !! i = Some (Some None).

(** The position [k] is out of the reach of the loop over [idx]: it is not
    visited, or its element has no material attribute. *)
Definition out_of_reach (idx : list nat) (l : list Element) (k : nat) : Prop :=
  k ∉ idx ∨ material <$> l !! k = Some None.


(** The two rows of an outline have one length; a ring is not empty and ends
    at the point it starts from. *)
Definition well_formed (o : Outline) : Prop :=
  match o with
  | OpenCurve x z => length x = length z
  | ClosedRing x z =>
      length x = length z
      ∧ is_Some (head x) ∧ head x = list.last x ∧ head z = list.last z
  end.

(** In an open curve the two rows are the same. *)
Definition same_rows (o : Outline) : Prop :=
  match o with
  | OpenCurve x z => x = z
  | ClosedRing _ _ => True
  end.

(** [hasattr(e, "material")] *)
Definition has_material (e : Element) : bool :=
  match material e with
  | Some _ => true
  | None => false
  end.

(** * Properties *)

(** ** Indexing and slicing *)

Lemma getitem_0 {A : Type} (x : A) (l : list A) : getitem (x :: l) 0 = Ok x.
Proof. reflexivity. Qed.

Lemma setitem_0 {A : Type} (x y : A) (l : list A) :
  setitem (x :: l) 0 y = Ok (y :: l).
Proof.
  unfold setitem, wrap_index; simpl. reflexivity.
Qed.

Lemma wrap_index_last (n : nat) :
  (0 < n)%nat → wrap_index n (-1) = Z.of_nat (pred n).
Proof. intros Hn. unfold wrap_index. simpl. lia. Qed.

Lemma getitem_last {A : Type} (l : list A) (x : A) :
  list.last l = Some x → getitem l (-1) = Ok x.
Proof.
  intros Hl. rewrite last_lookup in Hl.
  assert (0 < length l)%nat as Hn.
  { destruct l; simpl in *; [discriminate | lia]. }
  unfold getitem. rewrite wrap_index_last by done.
  case_decide; [lia|].
  by rewrite Nat2Z.id, Hl.
Qed.

Lemma setitem_last {A : Type} (l : list A) (x y : A) :
  list.last l = Some x →
  setitem l (-1) y = Ok (<[pred (length l) := y]> l).
Proof.
  intros Hl. rewrite last_lookup in Hl.
  assert (0 < length l)%nat as Hn.
  { destruct l; simpl in *; [discriminate | lia]. }
  unfold setitem. rewrite wrap_index_last by done.
  case_decide; [lia|].
  rewrite Nat2Z.id. case_decide; [done | lia].
Qed.

Lemma slice_to_end {A : Type} (l : list A) (start : Z) :
  (0 ≤ start ≤ Z.of_nat (length l))%Z →
  slice l start (Z.of_nat (length l)) = drop (Z.to_nat start) l.
Proof.
  intros Hs. unfold slice, slice_bound, wrap_index.
  repeat (case_decide; [lia|]).
  rewrite Z.max_l, Z.min_l by lia.
  rewrite Z.max_l, Z.min_l by lia.
  rewrite Nat2Z.id. apply take_ge. rewrite length_drop. lia.
Qed.

Section properties.
Context {ops : Collaborators}.

(** ** Construction *)

(** C4, as amended: a train constructed with the element list passed as
    [None] holds the three elements [Object(finite=False)], [Aperture()]
    and [Image()], in this order. *)
Theorem System_init_None (d : arg string) (sc : arg float) (w : arg (list Qc)) :
  items (System_init (Given None) d sc w)
    = [new_Object false; new_Aperture; new_Image]
  ∧ cls <$> items (System_init (Given None) d sc w) = [Object; Aperture; Image]
  ∧ finite (new_Object false) = false.
Proof. done. Qed.

(** ** Role setters *)

(** C7: with a value of class [Object], the setter of [object] replaces
    element 0 when that is an [Object] (the length stays) and inserts at the
    head otherwise (the length grows by one); with a value of class [Image],
    the setter of [image] does the same at the tail. *)
Theorem role_setters (s : System) (value e : Element) :
  (isinstance value Object = true → items s !! 0%nat = Some e →
     (isinstance e Object = true →
        set_object value s = Ok (set_items (<[0%nat := value]> (items s)) s)
        ∧ length (<[0%nat := value]> (items s)) = length (items s))
     ∧ (isinstance e Object = false →
        set_object value s = Ok (set_items (value :: items s) s)
        ∧ length (value :: items s) = S (length (items s))))
  ∧ (isinstance value Image = true → list.last (items s) = Some e →
     (isinstance e Image = true →
        set_image value s
          = Ok (set_items (<[pred (length (items s)) := value]> (items s)) s)
        ∧ length (<[pred (length (items s)) := value]> (items s))
          = length (items s))
     ∧ (isinstance e Image = false →
        set_image value s = Ok (set_items (items s ++ [value]) s)
        ∧ length (items s ++ [value]) = S (length (items s)))).
Proof.
  split.
  - intros Hv H0. unfold set_object. rewrite Hv.
    destruct (items s) as [|e0 l] eqn:Hl; [discriminate|].
    injection H0 as ->. rewrite getitem_0. simpl.
    split; intros ->; done.
  - intros Hv Hlast. unfold set_image. rewrite Hv.
    rewrite (getitem_last _ _ Hlast). simpl.
    split; intros ->.
    + rewrite (setitem_last _ _ _ Hlast). simpl.
      by rewrite length_insert.
    + rewrite length_app. simpl. split; [done | lia].
Qed.

(** ** The aperture *)

Lemma first_Aperture_None (l : list Element) :
  (∀ e, e ∈ l → isinstance e Aperture = false) → first_Aperture l = None.
Proof.
  induction l as [|e l IH]; intros H; [done|]. simpl.
  rewrite (H e) by left. apply IH. intros e' He'. apply H. by right.
Qed.

Lemma list_index_None (l : list Element) : list_index None l = Raise ValueError.
Proof.
  induction l as [|e l IH]; [done|]. simpl.
  destruct (decide (Some e = None)) as [|_]; [discriminate|]. by rewrite IH.
Qed.

Lemma first_Aperture_at (l : list Element) (i : nat) (e : Element) :
  l !! i = Some e → isinstance e Aperture = true →
  (∀ j e', (j < i)%nat → l !! j = Some e' → isinstance e' Aperture = false) →
  first_Aperture l = Some e ∧ list_index (Some e) l = Ok i.
Proof.
  revert i. induction l as [|x l IH]; intros i Hi He Hbefore; [done|].
  destruct i as [|i]; simpl in *.
  - injection Hi as ->. rewrite He.
    destruct (decide (Some e = Some e)); done.
  - rewrite (Hbefore 0%nat x) by (done || lia).
    destruct (IH i Hi He) as [-> ->].
    { intros j e' Hj. apply (Hbefore (S j)). lia. }
    split; [done|].
    destruct (decide (Some x = Some e)) as [[= ->]|_]; [|done].
    specialize (Hbefore 0%nat e). rewrite He in Hbefore.
    discriminate Hbefore; [lia | done].
Qed.

(** C8: [aperture] is the first element of class [Aperture] in the order of
    the train, and [None] when there is none; [aperture_index] is the
    position of that element, and raises when there is none. *)
Theorem aperture_first_match (s : System) :
  (∀ i e, items s !! i = Some e → isinstance e Aperture = true →
     (∀ j e', (j < i)%nat → items s !! j = Some e' →
        isinstance e' Aperture = false) →
     aperture s = Some e ∧ aperture_index s = Ok i)
  ∧ ((∀ e, e ∈ items s → isinstance e Aperture = false) →
     aperture s = None ∧ aperture_index s = Raise ValueError).
Proof.
  split.
  - intros i e Hi He Hbefore. unfold aperture_index, aperture.
    destruct (first_Aperture_at _ _ _ Hi He Hbefore) as [-> ->]. done.
  - intros H. unfold aperture_index, aperture.
    rewrite (first_Aperture_None _ H). split; [done|]. apply list_index_None.
Qed.

(** ** surfaces_cut *)

Lemma column_valid (axis : Z) :
  (-3 ≤ axis < 3)%Z → ∃ col, column axis = Ok col.
Proof.
  intros Ha. unfold column, wrap_index.
  repeat case_decide; eauto; lia.
Qed.

(** Elements without a material yield one open curve each, whatever is
    pending. *)
Lemma cut_loop_no_material (axis points : Z) (l : list Element) :
  (-3 ≤ axis < 3)%Z →
  Forall (λ e, material_or_None e = None) l →
  ∀ z0 pending, ∃ curves,
    cut_loop axis points z0 pending l = (curves, None)
    ∧ length curves = length l
    ∧ Forall (λ o, is_open o = true) curves.
Proof.
  intros Ha Hl. destruct (column_valid axis Ha) as [col Hcol].
  induction Hl as [|e l He _ IH]; intros z0 pending.
  - exists []. repeat split; constructor.
  - simpl. rewrite Hcol, He.
    destruct (IH (z0 + distance e) pending) as (curves & -> & Hlen & Hopen).
    eexists. unfold yield. simpl. repeat split.
    + simpl. by rewrite Hlen.
    + constructor; done.
Qed.

(** C9: on a train of an [Object], an [Aperture] and an [Image] that carry
    no material, [surfaces_cut] yields three outlines, each an open curve,
    and ends without an exception ([axis] being a column of the array). *)
Theorem surfaces_cut_markers (axis points : Z) (s : System)
    (o a i : Element) :
  (-3 ≤ axis < 3)%Z →
  items s = [o; a; i] →
  cls o = Object → cls a = Aperture → cls i = Image →
  material_or_None o = None → material_or_None a = None →
  material_or_None i = None →
  ∃ x1 z1 x2 z2 x3 z3,
    surfaces_cut axis points s
      = ([OpenCurve x1 z1; OpenCurve x2 z2; OpenCurve x3 z3], None).
Proof.
  intros Ha Hs _ _ _ Ho Hap Hi. unfold surfaces_cut. rewrite Hs.
  destruct (column_valid axis Ha) as [col Hcol].
  simpl. rewrite Hcol, Ho, Hap, Hi. unfold yield. simpl.
  by repeat eexists.
Qed.

(** On a train whose elements carry no material, [surfaces_cut] yields one
    open curve for each element and ends without an exception. *)
Theorem surfaces_cut_no_material (axis points : Z) (s : System) :
  (-3 ≤ axis < 3)%Z →
  Forall (λ e, material_or_None e = None) (items s) →
  ∃ curves,
    surfaces_cut axis points s = (curves, None)
    ∧ length curves = length (items s)
    ∧ Forall (λ o, is_open o = true) curves.
Proof. intros Ha Hs. by apply cut_loop_no_material. Qed.

(** ** The paraxial matrix chain *)

Lemma stop_or_len_0 (n : nat) : stop_or_len (Some 0%Z) n = stop_or_len None n.
Proof. reflexivity. Qed.

Lemma length_chain (l n : Qc) (es : list Element) :
  length (chain l n es) = length es.
Proof. revert n. induction es as [|e es IH]; intros n; simpl; [done|]. by rewrite IH. Qed.

(** The pair at position [i] of a chain is what the element at position [i]
    returns for the index that the pair before it carries. *)
Lemma chain_lookup (l : Qc) (es : list Element) :
  ∀ n i e,
    es !! i = Some e →
    chain l n es !! i
    = Some (Element_paraxial_matrix e (index_before n (chain l n es) i) l).
Proof.
  induction es as [|e0 es IH]; intros n i e Hi; [done|].
  destruct i as [|i].
  - simpl in *. by injection Hi as ->.
  - change ((e0 :: es) !! S i) with (es !! i) in Hi.
    change (chain l n (e0 :: es))
      with (Element_paraxial_matrix e0 n l
            :: chain l (fst (Element_paraxial_matrix e0 n l)) es).
    set (r0 := Element_paraxial_matrix e0 n l).
    change ((r0 :: chain l (fst r0) es) !! S i)
      with (chain l (fst r0) es !! i).
    rewrite (IH _ _ _ Hi).
    assert (index_before (fst r0) (chain l (fst r0) es) i
            = index_before n (r0 :: chain l (fst r0) es) (S i)) as ->; [|done].
    destruct i as [|i]; [done|]. simpl.
    assert (is_Some (chain l (fst r0) es !! i)) as [r Hr].
    { apply lookup_lt_is_Some. rewrite length_chain.
      apply lookup_lt_Some in Hi. lia. }
    by rewrite Hr.
Qed.

(** A slice that ends at the length of the list is the list from the
    position of its start. *)
Lemma slice_to_len {A : Type} (l : list A) (start : Z) :
  slice l start (Z.of_nat (length l)) = drop (slice_bound (length l) start) l.
Proof.
  unfold slice.
  assert (slice_bound (length l) (Z.of_nat (length l)) = length l) as ->.
  { unfold slice_bound, wrap_index. case_decide; lia. }
  apply take_ge. rewrite length_drop. lia.
Qed.

Lemma slice_bound_nonneg (n : nat) (start : Z) :
  (0 ≤ start ≤ Z.of_nat n)%Z → slice_bound n start = Z.to_nat start.
Proof. intros H. unfold slice_bound, wrap_index. case_decide; lia. Qed.

(** C10: a call with [stop = 0] does what the call with [stop] left out
    does.  When [self[start - 1]] exists the generator yields one pair for
    each element from the position of [start] to the end of the train, in
    order: the pair that this element's [paraxial_matrix] returns for the
    running index (the index of [self[start - 1]] for the first element, the
    index of the pair before for the others), and [paraxial_matrix] folds
    these pairs.  When [self[start - 1]] raises, the call raises. *)
Theorem paraxial_stop_zero (l : Qc) (start : Z) (s : System) :
  paraxial_matrices l start (Some 0%Z) s = paraxial_matrices l start None s
  ∧ paraxial_matrix l start (Some 0%Z) s = paraxial_matrix l start None s
  ∧ paraxial_range start (Some 0%Z) s
    = slice (items s) start (Z.of_nat (length (items s)))
  ∧ ((0 ≤ start ≤ Z.of_nat (length (items s)))%Z →
     paraxial_range start (Some 0%Z) s = drop (Z.to_nat start) (items s)
     ∧ slice_bound (length (items s)) start = Z.to_nat start)
  ∧ (∀ e0, getitem (items s) (start - 1) = Ok e0 →
     let first := slice_bound (length (items s)) start in
     ∃ ms,
       paraxial_matrices l start (Some 0%Z) s = Ok ms
       ∧ length ms = (length (items s) - first)%nat
       ∧ (∀ i e, items s !! (first + i)%nat = Some e →
            ms !! i
            = Some (Element_paraxial_matrix e
                      (index_before (Element_refractive_index e0 l) ms i) l))
       ∧ paraxial_matrix l start (Some 0%Z) s
         = Ok (foldl (λ m r, np_dot (snd r) m) eye2 ms))
  ∧ (∀ x, getitem (items s) (start - 1) = Raise x →
     paraxial_matrices l start (Some 0%Z) s = Raise x
     ∧ paraxial_matrix l start (Some 0%Z) s = Raise x).
Proof.
  unfold paraxial_matrix, paraxial_matrices, paraxial_range.
  rewrite stop_or_len_0.
  split; [done|]. split; [done|]. split; [done|]. split; [|split].
  - intros Hs. split; [by apply slice_to_end | by apply slice_bound_nonneg].
  - intros e0 He0. rewrite He0. simpl.
    change (stop_or_len None (length (items s)))
      with (Z.of_nat (length (items s))).
    rewrite slice_to_len. eexists. split; [done|].
    split; [by rewrite length_chain, length_drop|].
    split; [|done].
    intros i e Hi. apply chain_lookup. by rewrite lookup_drop.
  - intros x Hx. by rewrite Hx.
Qed.

(** The product of a chain that starts from [m0] is the product of the chain
    applied to [m0], when the product is exact. *)
Lemma fold_dot (ms : list (Qc * Matrix)) (m0 : Matrix) :
  exact_product →
  foldl (λ m r, np_dot (snd r) m) m0 ms
  = np_dot (foldl (λ m r, np_dot (snd r) m) eye2 ms) m0.
Proof.
  intros (Hassoc & Hl & Hr).
  revert m0. induction ms as [|r ms IH]; intros m0; simpl.
  - by rewrite Hl.
  - rewrite IH, (IH (np_dot (snd r) eye2)).
    by rewrite Hr, Hassoc.
Qed.

Lemma chain_app (l n : Qc) (es1 es2 : list Element) :
  chain l n (es1 ++ es2) = chain l n es1 ++ chain l (final_index l n es1) es2.
Proof.
  revert n. induction es1 as [|e es1 IH]; intros n; simpl; [done|].
  by rewrite IH.
Qed.

Lemma final_index_snoc (l n : Qc) (es : list Element) (e : Element) :
  final_index l n (es ++ [e])
  = fst (Element_paraxial_matrix e (final_index l n es) l).
Proof. revert n. induction es as [|x es IH]; intros n; simpl; [done|]. apply IH. Qed.

(** The index of the last pair of a chain is the index that the chain hands
    on. *)
Lemma last_chain (l n : Qc) (es : list Element) (e : Element) :
  fst <$> list.last (chain l n (es ++ [e])) = Some (final_index l n (es ++ [e])).
Proof.
  rewrite chain_app, final_index_snoc. simpl. by rewrite last_snoc.
Qed.

Lemma slice_nonneg {A : Type} (l : list A) (a b : nat) :
  (a ≤ length l)%nat → (b ≤ length l)%nat →
  slice l (Z.of_nat a) (Z.of_nat b) = take (b - a) (drop a l).
Proof.
  intros Ha Hb. unfold slice, slice_bound, wrap_index.
  repeat (case_decide; [lia|]).
  replace (Z.min (Z.max (Z.of_nat a) 0) (Z.of_nat (length l))) with (Z.of_nat a) by lia.
  replace (Z.min (Z.max (Z.of_nat b) 0) (Z.of_nat (length l))) with (Z.of_nat b) by lia.
  by rewrite !Nat2Z.id.
Qed.

Lemma getitem_nonneg {A : Type} (l : list A) (i : nat) (x : A) :
  l !! i = Some x → getitem l (Z.of_nat i) = Ok x.
Proof.
  intros Hi. unfold getitem, wrap_index.
  destruct (decide (Z.of_nat i < 0)%Z); [lia|]. simpl.
  destruct (decide (Z.of_nat i < 0)%Z); [lia|].
  by rewrite Nat2Z.id, Hi.
Qed.

Lemma stop_or_len_pos (k n : nat) :
  (0 < k)%nat → stop_or_len (Some (Z.of_nat k)) n = Z.of_nat k.
Proof.
  intros Hk. unfold stop_or_len. destruct (decide _); [lia | done].
Qed.

(** The chain over a sub-range, split at a position inside it.  The front
    part hands on the index of its last pair; when this is the index that
    seeds the rear part, the matrix of the whole is the front matrix
    multiplied on the left, in turn, by the matrices of the rear part, and,
    with an exact product, the rear matrix times the front matrix. *)
Lemma chain_split (l : Qc) (a k b : nat) (s : System) (e : Element)
    (front_ms : list (Qc * Matrix)) :
  (1 ≤ a < k)%nat → (k ≤ b ≤ length (items s))%nat →
  items s !! (k - 1)%nat = Some e →
  paraxial_matrices l (Z.of_nat a) (Some (Z.of_nat k)) s = Ok front_ms →
  fst <$> list.last front_ms = Some (Element_refractive_index e l) →
  ∃ front rear_ms rear whole,
    paraxial_matrix l (Z.of_nat a) (Some (Z.of_nat k)) s = Ok front
    ∧ paraxial_matrices l (Z.of_nat k) (Some (Z.of_nat b)) s = Ok rear_ms
    ∧ paraxial_matrix l (Z.of_nat k) (Some (Z.of_nat b)) s = Ok rear
    ∧ paraxial_matrix l (Z.of_nat a) (Some (Z.of_nat b)) s = Ok whole
    ∧ whole = foldl (λ m r, np_dot (snd r) m) front rear_ms
    ∧ (exact_product → np_dot rear front = whole).
Proof.
  intros Ha Hb He Hfront_ms Hidx.
  destruct (items s !! (a - 1)%nat) as [e0|] eqn:He0;
    [|apply lookup_ge_None_1 in He0; lia].
  revert Hfront_ms.
  unfold paraxial_matrix, paraxial_matrices, paraxial_range.
  rewrite !stop_or_len_pos by lia.
  replace (Z.of_nat a - 1)%Z with (Z.of_nat (a - 1)) by lia.
  replace (Z.of_nat k - 1)%Z with (Z.of_nat (k - 1)) by lia.
  rewrite (getitem_nonneg _ _ _ He0), (getitem_nonneg _ _ _ He).
  rewrite !slice_nonneg by lia. simpl.
  set (n0 := Element_refractive_index e0 l).
  set (t := drop a (items s)).
  assert (t !! (k - a - 1)%nat = Some e) as He'.
  { unfold t. rewrite lookup_drop. by replace (a + (k - a - 1))%nat
      with (k - 1)%nat by lia. }
  assert (take (k - a) t = take (k - a - 1) t ++ [e]) as Hfront.
  { replace (k - a)%nat with (S (k - a - 1)) at 1 by lia. by apply take_S_r. }
  assert (take (b - a) t = take (k - a) t ++ take (b - k) (drop k (items s)))
    as Hsplit.
  { replace (b - a)%nat with ((k - a) + (b - k))%nat by lia.
    rewrite <- take_take_drop. unfold t. rewrite drop_drop.
    by replace (a + (k - a))%nat with k by lia. }
  intros [= <-]. rewrite Hfront, last_chain in Hidx.
  injection Hidx as Hidx. rewrite <- Hfront in Hidx.
  eexists _, _, _, _. split; [done|]. split; [done|]. split; [done|].
  split; [done|].
  rewrite Hsplit, chain_app, foldl_app, Hidx. split; [done|].
  intros Hexact. by rewrite (fold_dot _ (foldl _ eye2 _) Hexact).
Qed.

(** C1, as amended: for a split position [1 < k < N], and provided the index
    of the last pair that [paraxial_matrices(l, 1, k)] yields (the index
    that the element before the split hands on in the chain that is run) is
    [self[k - 1].refractive_index(l)], the matrix of the whole chain is
    [paraxial_matrix(l, 1, k)] multiplied on the left, in turn, by the
    matrices that [paraxial_matrices(l, k, N)] yields; with a product that is
    associative and has the identity as unit this is the matrix of the rear
    part times the matrix of the front part,
    [paraxial_matrix(l, k, N) . paraxial_matrix(l, 1, k)]. *)
Theorem paraxial_chain_split (l : Qc) (k : nat) (s : System) (e : Element)
    (front_ms : list (Qc * Matrix)) :
  (1 < k < length (items s))%nat →
  items s !! (k - 1)%nat = Some e →
  paraxial_matrices l 1 (Some (Z.of_nat k)) s = Ok front_ms →
  fst <$> list.last front_ms = Some (Element_refractive_index e l) →
  ∃ front rear_ms rear whole,
    paraxial_matrix l 1 (Some (Z.of_nat k)) s = Ok front
    ∧ paraxial_matrices l (Z.of_nat k)
        (Some (Z.of_nat (length (items s)))) s = Ok rear_ms
    ∧ paraxial_matrix l (Z.of_nat k)
        (Some (Z.of_nat (length (items s)))) s = Ok rear
    ∧ paraxial_matrix l 1 (Some (Z.of_nat (length (items s)))) s = Ok whole
    ∧ whole = foldl (λ m r, np_dot (snd r) m) front rear_ms
    ∧ (exact_product → np_dot rear front = whole).
Proof.
  intros Hk He Hfront Hidx.
  apply (chain_split l 1 k (length (items s)) s e front_ms);
    [lia | lia | done | done | done].
Qed.

(** ** rescale *)

(** A positive float is not zero. *)
Lemma positive_not_zero (a : float) :
  (0 <? a)%float = true → (a =? 0)%float = false.
Proof.
  rewrite ltb_spec, FloatAxioms.eqb_spec.
  change (Prim2SF 0) with (S754_zero false).
  by destruct (Prim2SF a) as [ | [] | | [] ].
Qed.

(** C5, as amended: for positive factors [a] and [b], and when the
    [rescale] of every element of the train is multiplicative at [a] and
    [b], [rescale(a)] followed by [rescale(b)] returns and leaves every
    element, the description and the wavelengths as [rescale(a * b)] does
    when that returns, with the scale [(scale / a) / b] where the single call
    leaves [scale / (a * b)]: two quotients of binary64 that agree up to
    rounding only.  The single call raises [ZeroDivisionError] when the
    product [a * b] is 0, as it is when it underflows. *)
Theorem rescale_compose (s : System) (a b : float) :
  (0 <? a)%float = true → (0 <? b)%float = true →
  (∀ e, e ∈ items s →
     Element_rescale b (Element_rescale a e) = Element_rescale (a * b)%float e) →
  rescale (Some a) s ≫= rescale (Some b)
  = Ok (mkSystem (Element_rescale (a * b)%float <$> items s) (description s)
          (scale s / a / b)%float (wavelengths s))
  ∧ rescale (Some (a * b)%float) s
    = (if (a * b =? 0)%float then Raise ZeroDivisionError
       else Ok (mkSystem (Element_rescale (a * b)%float <$> items s)
                  (description s) (scale s / (a * b))%float (wavelengths s)))
  ∧ ((a * b =? 0)%float = false →
     (scale s / a / b)%float = (scale s / (a * b))%float →
     rescale (Some a) s ≫= rescale (Some b) = rescale (Some (a * b)%float) s).
Proof.
  intros Ha Hb Hmul.
  apply positive_not_zero in Ha, Hb.
  assert (rescale (Some a) s ≫= rescale (Some b)
          = Ok (mkSystem (Element_rescale (a * b)%float <$> items s)
                  (description s) (scale s / a / b)%float (wavelengths s)))
    as H2.
  { unfold rescale. rewrite Ha. simpl. rewrite Hb. do 2 f_equal.
    rewrite <- list_fmap_compose. apply list_fmap_ext.
    intros i e Hi. simpl. apply Hmul. by eapply list_elem_of_lookup_2. }
  split; [done|]. split; [done|].
  intros Hab Hsc. rewrite H2. unfold rescale. by rewrite Hab, Hsc.
Qed.

(** ** resize_convex *)

Lemma grown_refl (e : Element) : grown e e.
Proof. split; [by destruct e | apply Qcle_refl]. Qed.

Lemma grown_trans (e1 e2 e3 : Element) : grown e1 e2 → grown e2 e3 → grown e1 e3.
Proof.
  intros [H12 Hle12] [H23 Hle23]. split.
  - rewrite H23 at 1. rewrite H12. done.
  - by apply Qcle_trans with (radius e2).
Qed.

Lemma py_max_ge (a b : Qc) : a ≤ py_max a b.
Proof.
  unfold py_max. destruct (decide (a < b)).
  - by apply Qclt_le_weak.
  - apply Qcle_refl.
Qed.

Lemma Forall2_grown_refl (l : list Element) : Forall2 grown l l.
Proof. apply Forall_Forall2_diag, Forall_forall. intros; apply grown_refl. Qed.

Lemma grow_radius_grown (i j : nat) (l : list Element) :
  Forall2 grown l (grow_radius i j l).
Proof.
  unfold grow_radius.
  destruct (l !! i) as [x|] eqn:Hx; [|apply Forall2_grown_refl].
  destruct (l !! j) as [y|]; [|apply Forall2_grown_refl].
  rewrite <- (list_insert_id l i x) at 1 by done.
  apply Forall2_insert; [apply Forall2_grown_refl|].
  split; [done|]. apply py_max_ge.
Qed.

Lemma Forall2_grown_trans (l1 l2 l3 : list Element) :
  Forall2 grown l1 l2 → Forall2 grown l2 l3 → Forall2 grown l1 l3.
Proof. apply Forall2_trans, grown_trans. Qed.

Lemma resize_step_grown (i : nat) (l : list Element) (p : Pending) :
  Forall2 grown l (fst (fst (resize_step i (l, p)))).
Proof.
  unfold resize_step.
  destruct (l !! i) as [el|]; [|apply Forall2_grown_refl].
  destruct (material el) as [mat|]; [|apply Forall2_grown_refl].
  destruct (pending p) as [j|].
  - assert (Forall2 grown l
      (let l0 := if decide (curvature_or_0 el < 0) then grow_radius i j l else l in
       if is_positive (c0 p) then grow_radius j i l0 else l0)) as H.
    { simpl. destruct (decide _), (is_positive _);
        eauto using Forall2_grown_trans, grow_radius_grown, Forall2_grown_refl. }
    destruct mat as [mat|]; [destruct (solid mat)|]; exact H.
  - destruct mat as [mat|]; [destruct (solid mat)|]; apply Forall2_grown_refl.
Qed.

Lemma resize_loop_grown (idx : list nat) (l : list Element) (p : Pending) :
  Forall2 grown l (fst (resize_loop idx (l, p))).
Proof.
  revert l p. induction idx as [|i idx IH]; intros l p; cbn [resize_loop fst].
  - apply Forall2_grown_refl.
  - pose proof (resize_step_grown i l p) as H.
    destruct (resize_step i (l, p)) as [[l' p'] [ex|]]; cbn [fst] in *; [done|].
    eauto using Forall2_grown_trans.
Qed.

(** C6: after [fix_sizes] (that is, [resize_convex]) every element is the
    element it was, with a radius greater than or equal to the one it had;
    this holds of the train a raising call leaves behind as well. *)
Theorem fix_sizes_radius_monotone (s : System) :
  Forall2 (λ e e', radius e ≤ radius e' ∧ e' = set_radius (radius e') e)
    (items s) (items (fst (fix_sizes s))).
Proof.
  unfold fix_sizes, resize_convex.
  pose proof (resize_loop_grown (interior (items s)) (items s)
                (mkPending None None)) as H.
  destruct (resize_loop _ _) as [l ex]. simpl in *.
  eapply Forall2_impl; [exact H|]. by intros e e' [-> ?].
Qed.

(** ** reverse *)

Lemma head_rev {A : Type} (l : list A) : head (rev l) = list.last l.
Proof.
  rewrite <- head_reverse. unfold list.reverse. by rewrite <- rev_alt.
Qed.

Lemma omap_rev {A B : Type} (f : A → option B) (l : list A) :
  omap f (rev l) = rev (omap f l).
Proof.
  induction l as [|x l IH]; simpl; [done|].
  rewrite omap_app, IH. simpl. destruct (f x); simpl; [done|].
  by rewrite app_nil_r.
Qed.

Section shift.
Context {E V : Type} (get : E → option V) (set : V → E → E).

#[local] Abbreviation gshift := (gshift get set).
#[local] Abbreviation bshift := (bshift get set).
#[local] Abbreviation first_val := (first_val get).
#[local] Abbreviation last_val := (last_val get).

Lemma gshift_app (v : V) (l1 l2 : list E) :
  gshift v (l1 ++ l2) = gshift v l1 ++ gshift (last_val v l1) l2.
Proof.
  revert v. induction l1 as [|e l1 IH]; intros v; simpl; [done|].
  destruct (get e); simpl; by rewrite IH.
Qed.

Lemma last_val_app (v : V) (l1 l2 : list E) :
  last_val v (l1 ++ l2) = last_val (last_val v l1) l2.
Proof.
  revert v. induction l1 as [|e l1 IH]; intros v; simpl; [done|].
  destruct (get e); apply IH.
Qed.

Lemma last_val_rev (v : V) (l : list E) : last_val v (rev l) = first_val v l.
Proof.
  induction l as [|e l IH]; simpl; [done|].
  rewrite last_val_app. simpl. by destruct (get e).
Qed.

Lemma rev_gshift_rev (v : V) (l : list E) :
  rev (gshift v (rev l)) = bshift v l.
Proof.
  induction l as [|e l IH]; simpl; [done|].
  rewrite gshift_app, rev_app_distr, IH, last_val_rev. simpl.
  by destruct (get e).
Qed.

Hypothesis get_set : ∀ v e, is_Some (get e) → get (set v e) = Some v.
Hypothesis set_get : ∀ v e, get e = Some v → set v e = e.
Hypothesis set_set : ∀ v w e, set v (set w e) = set v e.

(** Shifting back and then forth restores a list, up to the value of its
    first carrier, which is the one that the forward shift feeds in. *)
Lemma gshift_bshift_first (u v : V) (l : list E) :
  gshift u (bshift v l) = set_first get set u l.
Proof.
  revert u. induction l as [|e l IH]; intros u; simpl; [done|].
  destruct (get e) as [w|] eqn:He; simpl.
  - rewrite get_set by (by rewrite He). rewrite set_set. f_equal.
    rewrite IH. clear IH.
    induction l as [|x l IHl]; simpl; [done|].
    destruct (get x) as [w'|] eqn:Hx; [by rewrite set_get | by rewrite IHl].
  - rewrite He. f_equal. apply IH.
Qed.

(** Shifting forth and then back restores a list, up to the value of its
    last carrier, which is the one that the backward shift feeds in. *)
Lemma bshift_gshift_last (u v : V) (l : list E) :
  bshift u (gshift v l) = set_last get set u l.
Proof.
  assert (rev (gshift v l) = bshift v (rev l)) as Hr.
  { by rewrite <- rev_gshift_rev, rev_involutive. }
  by rewrite <- rev_gshift_rev, Hr, gshift_bshift_first.
Qed.

Lemma set_first_id (u : V) (l : list E) :
  (∀ w, head (omap get l) = Some w → w = u) → set_first get set u l = l.
Proof.
  induction l as [|e l IH]; intros Hu; simpl in *; [done|].
  destruct (get e) as [w|] eqn:He; simpl in *.
  - rewrite set_get; [done|]. rewrite He. f_equal. by apply Hu.
  - f_equal. by apply IH.
Qed.

Lemma set_last_id (u : V) (l : list E) :
  (∀ w, list.last (omap get l) = Some w → w = u) → set_last get set u l = l.
Proof.
  intros Hu. unfold set_last. rewrite set_first_id; [apply rev_involutive|].
  intros w Hw. apply Hu. by rewrite omap_rev, head_rev in Hw.
Qed.

End shift.

Lemma gshift_fmap {E V : Type} (get : E → option V) (set : V → E → E)
    (f : E → E) (v : V) (l : list E) :
  (∀ e, get (f e) = get e) →
  (∀ v e, f (set v e) = set v (f e)) →
  f <$> gshift get set v l = gshift get set v (f <$> l).
Proof.
  intros Hget Hset. revert v. induction l as [|e l IH]; intros v; simpl; [done|].
  rewrite Hget. destruct (get e); simpl; by rewrite ?Hset, IH.
Qed.

Lemma shift_distances_gshift (d : Qc) (l : list Element) :
  shift_distances d l = gshift (λ e, Some (distance e)) set_distance d l.
Proof. revert d. induction l as [|e l IH]; intros d; simpl; by rewrite ?IH. Qed.

Lemma shift_materials_gshift (m : option Material) (l : list Element) :
  shift_materials m l = gshift material set_material m l.
Proof.
  revert m. induction l as [|e l IH]; intros m; simpl; [done|].
  destruct (material e); by rewrite IH.
Qed.

(** The two loops write different attributes. *)
Lemma shift_distances_materials (d : Qc) (m : option Material)
    (l : list Element) :
  shift_distances d (shift_materials m l)
  = shift_materials m (shift_distances d l).
Proof.
  revert d m. induction l as [|e l IH]; intros d m; simpl; [done|].
  destruct (material e) eqn:He; simpl; rewrite ?He, IH; done.
Qed.

Lemma fmap_rev {A B : Type} (f : A → B) (l : list A) :
  f <$> rev l = rev (f <$> l).
Proof.
  induction l as [|x l IH]; simpl; [done|]. by rewrite fmap_app, IH.
Qed.

Lemma set_distance_id (d : Qc) (e : Element) :
  distance e = d → set_distance d e = e.
Proof. intros <-. by destruct e. Qed.

Lemma set_material_id (m : option Material) (e : Element) :
  material e = Some m → set_material m e = e.
Proof. destruct e; simpl. by intros ->. Qed.

(** An element's [reverse] that commutes with the assignments to [distance]
    and [material] leaves the two attributes as they are. *)
Lemma reverse_keeps_distance (e : Element) :
  (∀ d e, Element_reverse (set_distance d e)
          = set_distance d (Element_reverse e)) →
  distance (Element_reverse e) = distance e.
Proof.
  intros Hd. specialize (Hd (distance e) e).
  rewrite set_distance_id in Hd by done. by rewrite Hd.
Qed.

Lemma reverse_keeps_material (e : Element) :
  (∀ e, Element_reverse (Element_reverse e) = e) →
  (∀ m e, Element_reverse (set_material m e)
          = set_material m (Element_reverse e)) →
  material (Element_reverse e) = material e.
Proof.
  intros Hinv Hm. destruct (material e) as [m|] eqn:He.
  - specialize (Hm m e). rewrite set_material_id in Hm by done. by rewrite Hm.
  - destruct (material (Element_reverse e)) as [m|] eqn:Hr; [|done].
    specialize (Hm m (Element_reverse e)).
    rewrite set_material_id, !Hinv in Hm by done.
    rewrite Hm in He. discriminate He.
Qed.

Lemma fmap_shift_distances (f : Element → Element) (d : Qc)
    (l : list Element) :
  (∀ e, distance (f e) = distance e) →
  (∀ d e, f (set_distance d e) = set_distance d (f e)) →
  f <$> shift_distances d l = shift_distances d (f <$> l).
Proof.
  intros Hget Hset.
  rewrite (shift_distances_gshift d l), (shift_distances_gshift d (f <$> l)).
  apply gshift_fmap; [|done]. intros e. by rewrite Hget.
Qed.

Lemma fmap_shift_materials (f : Element → Element) (m : option Material)
    (l : list Element) :
  (∀ e, material (f e) = material e) →
  (∀ m e, f (set_material m e) = set_material m (f e)) →
  f <$> shift_materials m l = shift_materials m (f <$> l).
Proof.
  intros Hget Hset.
  rewrite (shift_materials_gshift m l), (shift_materials_gshift m (f <$> l)).
  by apply gshift_fmap.
Qed.

(** Two calls of [reverse] write the distance 0 to the first element and
    [None] to the last material attribute, and restore everything else. *)
Lemma reverse_twice_items (s : System) :
  (∀ e, Element_reverse (Element_reverse e) = e) →
  (∀ d e, Element_reverse (set_distance d e)
          = set_distance d (Element_reverse e)) →
  (∀ m e, Element_reverse (set_material m e)
          = set_material m (Element_reverse e)) →
  reverse (reverse s)
  = set_items (clear_last_material (zero_first_distance (items s))) s.
Proof.
  intros Hinv Hd Hm.
  pose proof (λ e, reverse_keeps_distance e Hd) as Hkd.
  pose proof (λ e, reverse_keeps_material e Hinv Hm) as Hkm.
  destruct s as [l desc sc wl]. unfold reverse, set_items. simpl in *.
  f_equal. rewrite rev_involutive.
  rewrite (fmap_shift_materials Element_reverse) by done.
  rewrite fmap_rev, (fmap_shift_distances Element_reverse) by done.
  rewrite <- list_fmap_compose.
  rewrite (list_fmap_ext (Element_reverse ∘ Element_reverse) id (rev l))
    by (intros; simpl; apply Hinv).
  rewrite list_fmap_id, shift_distances_materials.
  rewrite (shift_distances_gshift 0 (rev l)), rev_gshift_rev.
  rewrite shift_distances_gshift, gshift_bshift_first.
  - rewrite shift_materials_gshift, rev_gshift_rev, shift_materials_gshift.
    apply bshift_gshift_last; try done.
    intros v e He. by apply set_material_id.
  - done.
  - intros v e [= He]. by apply set_distance_id.
  - done.
Qed.

(** C2, as amended: two calls of [reverse] restore the train, every element
    with all its attributes in its place, when the first element's distance
    is 0 and the last element that has a material attribute holds [None] in
    it, the elements' own [reverse] being involutive and leaving the
    assignments to [distance] and [material] alone. *)
Theorem reverse_reverse (s : System) :
  (∀ e, Element_reverse (Element_reverse e) = e) →
  (∀ d e, Element_reverse (set_distance d e)
          = set_distance d (Element_reverse e)) →
  (∀ m e, Element_reverse (set_material m e)
          = set_material m (Element_reverse e)) →
  (∀ e, head (items s) = Some e → distance e = 0) →
  (∀ m, list.last (omap material (items s)) = Some m → m = None) →
  reverse (reverse s) = s.
Proof.
  intros Hinv Hd Hm Hhead Hlast.
  rewrite reverse_twice_items by done.
  unfold clear_last_material, zero_first_distance.
  rewrite set_first_id.
  - rewrite set_last_id; [by destruct s | |done].
    intros v e He. by apply set_material_id.
  - intros v e [= He]. by apply set_distance_id.
  - intros w Hw. destruct (items s) as [|e l]; [done|]. simpl in Hw.
    injection Hw as <-. by apply Hhead.
Qed.

(** Two calls of [reverse] change a train in two places at most: the first
    element's distance becomes 0 and the material attribute of the last
    element that has one becomes [None] (the elements' own [reverse] being
    involutive and leaving the two assignments alone). *)
Theorem reverse_twice (s : System) :
  (∀ e, Element_reverse (Element_reverse e) = e) →
  (∀ d e, Element_reverse (set_distance d e)
          = set_distance d (Element_reverse e)) →
  (∀ m e, Element_reverse (set_material m e)
          = set_material m (Element_reverse e)) →
  reverse (reverse s)
  = set_items (clear_last_material (zero_first_distance (items s))) s.
Proof. apply reverse_twice_items. Qed.

Lemma length_shift_distances (d : Qc) (l : list Element) :
  length (shift_distances d l) = length l.
Proof. revert d. induction l as [|e l IH]; intros d; simpl; by rewrite ?IH. Qed.

Lemma length_shift_materials (m : option Material) (l : list Element) :
  length (shift_materials m l) = length l.
Proof.
  revert m. induction l as [|e l IH]; intros m; simpl; [done|].
  destruct (material e); simpl; by rewrite IH.
Qed.

(** One call of [reverse] keeps the number of elements and leaves the
    distance 0 on the element that is first afterwards. *)
Theorem reverse_length_head (s : System) :
  length (items (reverse s)) = length (items s)
  ∧ distance <$> head (items (reverse s)) = (λ _, 0) <$> head (rev (items s)).
Proof.
  unfold reverse. simpl. split.
  - by rewrite length_rev, length_shift_materials, length_rev,
      length_shift_distances, length_fmap, length_rev.
  - rewrite shift_materials_gshift, rev_gshift_rev.
    destruct (rev (items s)) as [|e l]; simpl; [done|].
    destruct (material (Element_reverse e)); done.
Qed.

(** * Further properties *)

(** ** The role accessors: failures, round trips, frames *)

Lemma getitem_nil {A : Type} (i : Z) : getitem (@nil A) i = Raise IndexError.
Proof.
  unfold getitem. simpl.
  destruct (decide (wrap_index 0 i < 0)%Z); [done|].
  by destruct (Z.to_nat (wrap_index 0 i)).
Qed.

Lemma getitem_minus_1 {A : Type} (l : list A) :
  getitem l (-1)
  = match list.last l with
    | Some x => Ok x
    | None => Raise IndexError
    end.
Proof.
  destruct (list.last l) as [x|] eqn:Hl; [by apply getitem_last|].
  apply last_None in Hl as ->. apply getitem_nil.
Qed.

Lemma isinstance_class (e : Element) (c c' : ElementClass) :
  isinstance e c = true → c ≠ c' → isinstance e c' = false.
Proof.
  unfold isinstance. intros Hc Hne. apply bool_decide_eq_true_1 in Hc.
  apply bool_decide_eq_false_2. congruence.
Qed.

(** The getters return element 0 and the last element when these are of the
    class asserted, fail the assertion when they are not, and raise
    [IndexError] on an empty train. *)
Theorem role_getters (s : System) :
  (items s = [] → object s = Raise IndexError ∧ image s = Raise IndexError)
  ∧ (∀ e, head (items s) = Some e →
       object s = if isinstance e Object then Ok e else Raise AssertionError)
  ∧ (∀ e, list.last (items s) = Some e →
       image s = if isinstance e Image then Ok e else Raise AssertionError).
Proof.
  unfold object, image. split; [|split].
  - intros ->. by rewrite !getitem_nil.
  - intros e He. destruct (items s) as [|x l]; [done|].
    injection He as ->. by rewrite getitem_0.
  - intros e He. by rewrite (getitem_last _ _ He).
Qed.

(** The setters assert the class of the value before they look at the
    train, and raise [IndexError] on an empty train: they cannot fill it. *)
Theorem role_setters_fail (s : System) (value : Element) :
  (isinstance value Object = false → set_object value s = Raise AssertionError)
  ∧ (isinstance value Image = false → set_image value s = Raise AssertionError)
  ∧ (items s = [] → isinstance value Object = true →
     set_object value s = Raise IndexError)
  ∧ (items s = [] → isinstance value Image = true →
     set_image value s = Raise IndexError).
Proof.
  unfold set_object, set_image. repeat split.
  - by intros ->.
  - by intros ->.
  - intros -> ->. by rewrite getitem_nil.
  - intros -> ->. by rewrite getitem_nil.
Qed.

Lemma set_object_items (s s' : System) (value : Element) :
  set_object value s = Ok s' →
  isinstance value Object = true
  ∧ ∃ e l, items s = e :: l
      ∧ s' = set_items (if isinstance e Object then value :: l
                        else value :: e :: l) s.
Proof.
  unfold set_object. destruct (isinstance value Object); [|done].
  destruct (items s) as [|e l] eqn:Hs; [by rewrite getitem_nil|].
  rewrite getitem_0. simpl. intros H. split; [done|]. exists e, l.
  split; [done|]. destruct (isinstance e Object); simpl in H; congruence.
Qed.

Lemma set_image_items (s s' : System) (value : Element) :
  set_image value s = Ok s' →
  isinstance value Image = true
  ∧ ∃ l e, items s = l ++ [e]
      ∧ s' = set_items (if isinstance e Image then l ++ [value]
                        else l ++ [e; value]) s.
Proof.
  unfold set_image. destruct (isinstance value Image); [|done].
  destruct (items s) as [|x l0] eqn:Hs using rev_ind;
    [by rewrite getitem_nil|].
  clear IHl0. rewrite (getitem_last _ x) by apply last_snoc. simpl.
  intros H. split; [done|]. exists l0, x. split; [done|].
  destruct (isinstance x Image).
  - rewrite (setitem_last _ x) in H by apply last_snoc. simpl in H.
    rewrite length_app in H. simpl in H.
    replace (pred (length l0 + 1)) with (length l0 + 0)%nat in H by lia.
    rewrite insert_app_r in H. simpl in H. congruence.
  - rewrite <- app_assoc in H. simpl in H. congruence.
Qed.

(** What a setter stores, the getter returns. *)
Theorem set_then_get (s s' : System) (value : Element) :
  (set_object value s = Ok s' → object s' = Ok value)
  ∧ (set_image value s = Ok s' → image s' = Ok value).
Proof.
  split; intros H.
  - apply set_object_items in H as (Hv & e & l & _ & ->).
    unfold object. simpl. destruct (isinstance e Object);
      rewrite getitem_0; simpl; by rewrite Hv.
  - apply set_image_items in H as (Hv & l & e & _ & ->).
    unfold image. simpl. destruct (isinstance e Image).
    + rewrite (getitem_last _ value) by apply last_snoc. simpl. by rewrite Hv.
    + rewrite (getitem_last _ value).
      * simpl. by rewrite Hv.
      * change [e; value] with ([e] ++ [value]).
        rewrite app_assoc. apply last_snoc.
Qed.

Lemma first_Aperture_app (l1 l2 : list Element) :
  first_Aperture (l1 ++ l2)
  = match first_Aperture l1 with
    | Some e => Some e
    | None => first_Aperture l2
    end.
Proof.
  induction l1 as [|e l1 IH]; simpl; [done|].
  by destruct (isinstance e Aperture).
Qed.

(** A setter changes neither the element the other getter returns nor the
    element that is the aperture. *)
Theorem role_setters_frame (s s' : System) (value e : Element) :
  (set_object value s = Ok s' →
     aperture s' = aperture s ∧ (image s = Ok e → image s' = Ok e))
  ∧ (set_image value s = Ok s' →
     aperture s' = aperture s ∧ (object s = Ok e → object s' = Ok e)).
Proof.
  split; intros H.
  - apply set_object_items in H as (Hv & x & l & Hs & ->).
    pose proof (isinstance_class _ _ Aperture Hv) as Hva.
    unfold aperture, image. rewrite Hs. simpl.
    destruct (isinstance x Object) eqn:Hx; simpl.
    + rewrite Hva by done.
      rewrite (isinstance_class _ _ Aperture Hx) by done. split; [done|].
      rewrite !getitem_minus_1.
      destruct l as [|y l]; [|by rewrite !last_cons_cons].
      simpl. by rewrite (isinstance_class _ _ Image Hx).
    + rewrite Hva by done. split; [done|].
      by rewrite !getitem_minus_1, last_cons_cons.
  - apply set_image_items in H as (Hv & l & x & Hs & ->).
    pose proof (isinstance_class _ _ Aperture Hv) as Hva.
    unfold aperture, object. rewrite Hs. simpl.
    destruct (isinstance x Image) eqn:Hx; simpl.
    + rewrite !first_Aperture_app. simpl. rewrite Hva by done.
      rewrite (isinstance_class _ _ Aperture Hx) by done. split; [done|].
      destruct l as [|y l]; [|done]. simpl.
      by rewrite (isinstance_class _ _ Object Hx).
    + rewrite !first_Aperture_app. simpl. rewrite Hva by done. split.
      * destruct (first_Aperture l); [done|].
        by destruct (isinstance x Aperture).
      * by destruct l.
Qed.

(** After one successful call of a setter the role is filled: every further
    call replaces in place, and the length grows no more. *)
Theorem role_setters_again (s s1 : System) (v w : Element) :
  (set_object v s = Ok s1 → isinstance w Object = true →
     set_object w s1 = Ok (set_items (<[0%nat := w]> (items s1)) s1)
     ∧ length (<[0%nat := w]> (items s1)) = length (items s1))
  ∧ (set_image v s = Ok s1 → isinstance w Image = true →
     set_image w s1
       = Ok (set_items (<[pred (length (items s1)) := w]> (items s1)) s1)
     ∧ length (<[pred (length (items s1)) := w]> (items s1))
       = length (items s1)).
Proof.
  split; intros H Hw.
  - pose proof (proj1 (set_then_get s s1 v) H) as Hget.
    apply set_object_items in H as (Hv & _).
    unfold object in Hget. unfold set_object. rewrite Hw.
    destruct (items s1) as [|x l] eqn:Hs1; [by rewrite getitem_nil in Hget|].
    rewrite getitem_0 in *. simpl in *.
    destruct (isinstance x Object); [|done]. done.
  - pose proof (proj2 (set_then_get s s1 v) H) as Hget.
    apply set_image_items in H as (Hv & _).
    unfold image in Hget. unfold set_image. rewrite Hw.
    destruct (getitem (items s1) (-1)) as [x|] eqn:Hx; [|done]. simpl in *.
    destruct (isinstance x Image) eqn:Hxi; [|done].
    injection Hget as ->.
    assert (list.last (items s1) = Some v) as Hlast.
    { clear -Hx. destruct (items s1) as [|y l] using rev_ind;
        [by rewrite getitem_nil in Hx|].
      rewrite (getitem_last _ y) in Hx by apply last_snoc.
      injection Hx as ->. apply last_snoc. }
    rewrite (setitem_last _ _ _ Hlast). simpl. by rewrite length_insert.
Qed.

(** ** reverse: what one call leaves behind *)

Section shift_values.
Context {E V : Type} (get : E → option V) (set : V → E → E).
Hypothesis get_set : ∀ v e, is_Some (get e) → get (set v e) = Some v.

(** The carriers' values after a shift: the value fed in, then the values
    the carriers had, the last one dropped. *)
Lemma omap_gshift (v : V) (l : list E) :
  omap get (gshift get set v l)
  = take (length (omap get l)) (v :: omap get l).
Proof.
  revert v. induction l as [|e l IH]; intros v; simpl; [done|].
  destruct (get e) as [w|] eqn:He; simpl.
  - rewrite get_set by (by rewrite He). simpl. by rewrite IH.
  - rewrite He. apply IH.
Qed.

End shift_values.

Lemma distance_shift_materials (m : option Material) (l : list Element) :
  distance <$> shift_materials m l = distance <$> l.
Proof.
  revert m. induction l as [|e l IH]; intros m; simpl; [done|].
  destruct (material e); simpl; by rewrite IH.
Qed.

Lemma material_shift_distances (d : Qc) (l : list Element) :
  omap material (shift_distances d l) = omap material l.
Proof.
  revert d. induction l as [|e l IH]; intros d; simpl; [done|].
  by rewrite IH.
Qed.

Lemma distance_shift_distances (d : Qc) (l : list Element) :
  distance <$> shift_distances d l = take (length l) (d :: (distance <$> l)).
Proof.
  revert d. induction l as [|e l IH]; intros d; simpl; [done|].
  by rewrite IH.
Qed.

Lemma omap_material_shift_materials (m : option Material) (l : list Element) :
  omap material (shift_materials m l)
  = take (length (omap material l)) (m :: omap material l).
Proof. rewrite shift_materials_gshift. by apply omap_gshift. Qed.

Lemma omap_fmap_same {A B : Type} (f : A → option B) (g : A → A)
    (l : list A) :
  (∀ x, f (g x) = f x) → omap f (g <$> l) = omap f l.
Proof.
  intros H. induction l as [|x l IH]; [done|].
  rewrite fmap_cons. simpl. rewrite H.
  destruct (f x); [f_equal|]; exact IH.
Qed.

(** After [reverse] the distances are those of the old train read from its
    end, moved one place on: 0 first, and the old first distance dropped
    (the elements' own [reverse] keeping the distance). *)
Theorem reverse_distances (s : System) :
  (∀ e, distance (Element_reverse e) = distance e) →
  distance <$> items (reverse s)
  = take (length (items s)) (0 :: rev (distance <$> items s)).
Proof.
  intros Hd. unfold reverse. simpl.
  rewrite fmap_rev, distance_shift_materials, <- fmap_rev, rev_involutive.
  rewrite distance_shift_distances, length_fmap, length_rev.
  rewrite <- list_fmap_compose.
  rewrite (list_fmap_ext (distance ∘ Element_reverse) distance (rev (items s)))
    by (intros; apply Hd).
  by rewrite fmap_rev.
Qed.

Lemma reverse_materials_eq (s : System) :
  (∀ e, material (Element_reverse e) = material e) →
  rev (omap material (items (reverse s)))
  = take (length (omap material (items s)))
      (None :: omap material (items s)).
Proof.
  intros Hm. unfold reverse. simpl.
  rewrite omap_rev, rev_involutive, omap_material_shift_materials.
  rewrite omap_rev, material_shift_distances.
  rewrite (omap_fmap_same material Element_reverse) by done.
  by rewrite omap_rev, rev_involutive.
Qed.

(** After [reverse] each element that has a material attribute holds the
    material of the carrier that preceded it in the old train, and the old
    first carrier holds [None]; the material of the old last carrier is
    dropped (the elements' own [reverse] keeping the attribute). *)
Theorem reverse_materials (s : System) :
  (∀ e, material (Element_reverse e) = material e) →
  rev (omap material (items (reverse s)))
  = take (length (omap material (items s)))
      (None :: omap material (items s)).
Proof. apply reverse_materials_eq. Qed.

Lemma reverse_head_distance (s : System) (e : Element) :
  head (items (reverse s)) = Some e → distance e = 0.
Proof.
  unfold reverse. simpl.
  rewrite shift_materials_gshift, rev_gshift_rev.
  destruct (rev (items s)) as [|x l]; simpl; [done|].
  destruct (material (Element_reverse x)); by intros [= <-].
Qed.

Lemma reverse_last_carrier (s : System) (m : option Material) :
  list.last (omap material (items (reverse s))) = Some m → m = None.
Proof.
  unfold reverse. simpl.
  rewrite omap_rev, <- head_rev, rev_involutive.
  rewrite omap_material_shift_materials.
  destruct (omap material _); simpl; [done|]. by intros [= <-].
Qed.

(** Whatever the elements' own [reverse] does, a reversed train ends with
    [None] in the material attribute of its last carrier: the train that
    [reverse] returns never keeps a material there. *)
Theorem reverse_clears_last_material (s : System) :
  default None (list.last (omap material (items (reverse s)))) = None.
Proof.
  destruct (list.last _) as [m|] eqn:Hm; [|done].
  by apply reverse_last_carrier in Hm.
Qed.

(** Three calls of [reverse] leave the train as one call does (the elements'
    own [reverse] being involutive and leaving the assignments to
    [distance] and [material] alone). *)
Theorem reverse_thrice (s : System) :
  (∀ e, Element_reverse (Element_reverse e) = e) →
  (∀ d e, Element_reverse (set_distance d e)
          = set_distance d (Element_reverse e)) →
  (∀ m e, Element_reverse (set_material m e)
          = set_material m (Element_reverse e)) →
  reverse (reverse (reverse s)) = reverse s.
Proof.
  intros Hinv Hd Hm.
  rewrite (reverse_twice_items (reverse s)) by done.
  unfold clear_last_material, zero_first_distance.
  rewrite set_first_id.
  - rewrite set_last_id; [by destruct (reverse s) | |].
    + intros v e He. by apply set_material_id.
    + intros w Hw. by apply reverse_last_carrier in Hw.
  - intros v e [= He]. by apply set_distance_id.
  - intros w Hw. destruct (items (reverse s)) as [|e l] eqn:Hs; [done|].
    simpl in Hw. injection Hw as <-.
    apply (reverse_head_distance s). by rewrite Hs.
Qed.

(** ** resize_convex: where it raises, what it leaves alone *)

Lemma interior_seq (l : list Element) : interior l = seq 1 (length l - 2).
Proof.
  unfold interior, slice, slice_bound, wrap_index. rewrite length_seq.
  destruct (decide (1 < 0)%Z) as [H1|_]; [lia|].
  destruct (decide (-1 < 0)%Z) as [_|H1]; [|lia].
  destruct (length l) as [|[|n]] eqn:Hn; [done..|].
  replace (Z.to_nat (Z.min (Z.max 1 0) (Z.of_nat (S (S n))))) with 1%nat by lia.
  replace (Z.to_nat (Z.min (Z.max (-1 + Z.of_nat (S (S n))) 0)
                       (Z.of_nat (S (S n))))) with (S n) by lia.
  rewrite drop_seq, take_seq. f_equal; lia.
Qed.

Lemma grown_material (l l' : list Element) (k : nat) :
  Forall2 grown l l' → material <$> l' !! k = material <$> l !! k.
Proof.
  intros H. destruct (l !! k) as [e|] eqn:He.
  - destruct (Forall2_lookup_l _ _ _ _ _ H He) as (e' & -> & [-> _]). done.
  - apply Forall2_length in H.
    rewrite (lookup_ge_None_2 l') ; [done|].
    apply lookup_ge_None_1 in He. lia.
Qed.

#[local] Instance holds_None_dec (l : list Element) (i : nat) :
  Decision (holds_None l i).
Proof. unfold holds_None. apply _. Defined.

Lemma resize_step_raises (i : nat) (l : list Element) (p : Pending) :
  (holds_None l i → snd (resize_step i (l, p)) = Some AttributeError)
  ∧ (¬ holds_None l i → snd (resize_step i (l, p)) = None).
Proof.
  unfold resize_step, holds_None.
  destruct (l !! i) as [el|]; simpl; [|done].
  destruct (material el) as [[mat|]|]; simpl.
  - split; [done|]. intros _. destruct (pending p); by destruct (solid mat).
  - split; [|done]. intros _. by destruct (pending p).
  - done.
Qed.

Lemma resize_loop_raises (idx : list nat) (l : list Element) (p : Pending) :
  (Exists (holds_None l) idx →
   snd (resize_loop idx (l, p)) = Some AttributeError)
  ∧ (¬ Exists (holds_None l) idx → snd (resize_loop idx (l, p)) = None).
Proof.
  revert l p. induction idx as [|i idx IH]; intros l p; cbn [resize_loop].
  - split; [|done]. intros H. by apply Exists_nil in H.
  - destruct (resize_step_raises i l p) as [Hs1 Hs2].
    pose proof (resize_step_grown i l p) as Hg.
    assert (∀ l', Forall2 grown l l' →
              Exists (holds_None l') idx ↔ Exists (holds_None l) idx) as Hiff.
    { intros l' Hl'. rewrite !Exists_exists.
      assert (∀ k, holds_None l' k ↔ holds_None l k) as Hk.
      { intros k. unfold holds_None. by rewrite (grown_material l l'). }
      split; intros (k & Hin & Hk'); exists k; by rewrite ?Hk in *. }
    destruct (decide (holds_None l i)) as [Hi|Hi].
    + rewrite (surjective_pairing (resize_step i (l, p))),
        (surjective_pairing (fst (resize_step i (l, p)))), (Hs1 Hi).
      split; [done|]. intros Hn. destruct Hn. by left.
    + specialize (Hs2 Hi).
      destruct (resize_step i (l, p)) as [[l' p'] ex]; cbn [fst snd] in *.
      subst ex. destruct (IH l' p') as [IH1 IH2].
      rewrite Exists_cons, <- (Hiff l' Hg). split.
      * intros [?|?]; [done | by apply IH1].
      * intros Hn. apply IH2. tauto.
Qed.

Lemma resize_convex_raises (s : System) :
  (snd (fix_sizes s) = Some AttributeError
   ↔ ∃ i, (1 ≤ i)%nat ∧ (i + 1 < length (items s))%nat
          ∧ holds_None (items s) i)
  ∧ (snd (fix_sizes s) = None
     ↔ ¬ ∃ i, (1 ≤ i)%nat ∧ (i + 1 < length (items s))%nat
              ∧ holds_None (items s) i).
Proof.
  unfold fix_sizes, resize_convex.
  destruct (resize_loop_raises (interior (items s)) (items s)
              (mkPending None None)) as [H1 H2].
  destruct (resize_loop _ _) as [l ex]. simpl in *.
  rewrite interior_seq in H1, H2.
  assert (Exists (holds_None (items s)) (seq 1 (length (items s) - 2))
          ↔ ∃ i, (1 ≤ i)%nat ∧ (i + 1 < length (items s))%nat
                 ∧ holds_None (items s) i) as Hiff.
  { rewrite Exists_exists. split.
    - intros (i & Hin & Hi). apply elem_of_seq in Hin. exists i.
      repeat split; [lia | lia | done].
    - intros (i & Hi1 & Hi2 & Hi). exists i. split; [|done].
      apply elem_of_seq. lia. }
  rewrite <- Hiff.
  destruct (decide (Exists (holds_None (items s))
                      (seq 1 (length (items s) - 2)))) as [He|He].
  - rewrite (H1 He). split; split; done.
  - rewrite (H2 He). split; split; done.
Qed.

(** [fix_sizes] raises [AttributeError] exactly when an element between the
    first and the last has a material attribute that holds [None];
    otherwise it returns. *)
Theorem fix_sizes_raises (s : System) :
  (snd (fix_sizes s) = Some AttributeError
   ↔ ∃ i, (1 ≤ i)%nat ∧ (i + 1 < length (items s))%nat
          ∧ holds_None (items s) i)
  ∧ (snd (fix_sizes s) = None
     ↔ ¬ ∃ i, (1 ≤ i)%nat ∧ (i + 1 < length (items s))%nat
              ∧ holds_None (items s) i).
Proof. apply resize_convex_raises. Qed.

Lemma grow_radius_lookup_ne (i j k : nat) (l : list Element) :
  i ≠ k → grow_radius i j l !! k = l !! k.
Proof.
  intros Hik. unfold grow_radius.
  destruct (l !! i); [|done]. destruct (l !! j); [|done].
  by apply list_lookup_insert_ne.
Qed.

Lemma resize_step_untouched (i k : nat) (l : list Element) (p : Pending) :
  pending p ≠ Some k →
  i ≠ k ∨ material <$> l !! k = Some None →
  fst (fst (resize_step i (l, p))) !! k = l !! k
  ∧ pending (snd (fst (resize_step i (l, p)))) ≠ Some k.
Proof.
  intros Hp Hk. unfold resize_step.
  destruct (l !! i) as [el|] eqn:Hel; [|done].
  destruct (material el) as [mat|] eqn:Hmat; [|done].
  assert (i ≠ k) as Hik.
  { destruct Hk as [|Hk]; [done|]. intros ->. rewrite Hel in Hk.
    simpl in Hk. congruence. }
  assert (Some i ≠ Some k) as Hik' by congruence.
  destruct (pending p) as [j|] eqn:Hj.
  - assert (j ≠ k) as Hjk by congruence.
    assert ((if is_positive (c0 p)
             then grow_radius j i
                    (if decide (curvature_or_0 el < 0)
                     then grow_radius i j l else l)
             else if decide (curvature_or_0 el < 0)
                  then grow_radius i j l else l) !! k = l !! k) as Hl.
    { destruct (is_positive _), (decide _);
        by rewrite ?grow_radius_lookup_ne. }
    destruct mat as [mat|]; [destruct (solid mat)|]; by simpl.
  - destruct mat as [mat|]; [destruct (solid mat)|]; simpl; try done.
    all: by rewrite Hj.
Qed.

Lemma resize_loop_untouched (idx : list nat) (k : nat) (l : list Element)
    (p : Pending) :
  pending p ≠ Some k → out_of_reach idx l k →
  fst (resize_loop idx (l, p)) !! k = l !! k.
Proof.
  revert l p. induction idx as [|i idx IH]; intros l p Hp Hk;
    cbn [resize_loop fst]; [done|].
  assert (i ≠ k ∨ material <$> l !! k = Some None) as Hik.
  { destruct Hk as [Hk|Hk]; [left|by right].
    intros ->. apply Hk. by left. }
  destruct (resize_step_untouched i k l p Hp Hik) as [Hl Hp'].
  destruct (resize_step i (l, p)) as [[l' p'] [ex|]]; cbn [fst snd] in *;
    [done|].
  rewrite IH; [done | done |].
  destruct Hk as [Hk|Hk]; [left|right].
  - intros Hin. apply Hk. by right.
  - by rewrite Hl.
Qed.

(** [fix_sizes] leaves the first element, the last element and every element
    without a material attribute as they are, whether it returns or
    raises. *)
Theorem fix_sizes_untouched (s : System) (i : nat) (e : Element) :
  items s !! i = Some e →
  i = 0%nat ∨ (i + 1)%nat = length (items s) ∨ material e = None →
  items (fst (fix_sizes s)) !! i = Some e.
Proof.
  intros He Hi. unfold fix_sizes, resize_convex.
  pose proof (resize_loop_untouched (interior (items s)) i (items s)
                (mkPending None None)) as H.
  destruct (resize_loop _ _) as [l ex]. simpl in *.
  rewrite H; [done | done |].
  unfold out_of_reach. rewrite interior_seq, elem_of_seq, He. simpl.
  destruct Hi as [->|[Hi| ->]]; [left; lia | left; lia | by right].
Qed.

Lemma grow_radius_bound (M : Qc) (i j : nat) (l : list Element) :
  Forall (λ e, radius e ≤ M) l → Forall (λ e, radius e ≤ M) (grow_radius i j l).
Proof.
  intros Hl. unfold grow_radius.
  destruct (l !! i) as [x|] eqn:Hx; [|done].
  destruct (l !! j) as [y|] eqn:Hy; [|done].
  apply Forall_insert; [done|]. simpl.
  rewrite Forall_lookup in Hl. unfold py_max.
  destruct (decide _); [by apply (Hl j) | by apply (Hl i)].
Qed.

Lemma resize_step_bound (M : Qc) (i : nat) (l : list Element) (p : Pending) :
  Forall (λ e, radius e ≤ M) l →
  Forall (λ e, radius e ≤ M) (fst (fst (resize_step i (l, p)))).
Proof.
  intros Hl. unfold resize_step.
  destruct (l !! i) as [el|]; [|done].
  destruct (material el) as [mat|]; [|done].
  destruct (pending p) as [j|].
  - assert (Forall (λ e, radius e ≤ M)
      (if is_positive (c0 p)
       then grow_radius j i
              (if decide (curvature_or_0 el < 0)
               then grow_radius i j l else l)
       else if decide (curvature_or_0 el < 0)
            then grow_radius i j l else l)) as H.
    { destruct (is_positive _), (decide _);
        eauto using grow_radius_bound. }
    destruct mat as [mat|]; [destruct (solid mat)|]; exact H.
  - destruct mat as [mat|]; [destruct (solid mat)|]; exact Hl.
Qed.

Lemma resize_loop_bound (M : Qc) (idx : list nat) (l : list Element)
    (p : Pending) :
  Forall (λ e, radius e ≤ M) l →
  Forall (λ e, radius e ≤ M) (fst (resize_loop idx (l, p))).
Proof.
  revert l p. induction idx as [|i idx IH]; intros l p Hl;
    cbn [resize_loop fst]; [done|].
  pose proof (resize_step_bound M i l p Hl) as H.
  destruct (resize_step i (l, p)) as [[l' p'] [ex|]]; cbn [fst] in *;
    [done | by apply IH].
Qed.

(** [fix_sizes] makes no element larger than the largest element of the
    train: a bound on all radii before the call bounds them after it. *)
Theorem fix_sizes_radius_bound (s : System) (M : Qc) :
  Forall (λ e, radius e ≤ M) (items s) →
  Forall (λ e, radius e ≤ M) (items (fst (fix_sizes s))).
Proof.
  intros H. unfold fix_sizes, resize_convex.
  pose proof (resize_loop_bound M (interior (items s)) (items s)
                (mkPending None None) H) as H'.
  by destruct (resize_loop _ _) as [l ex].
Qed.

(** ** surfaces_cut: the outlines and the failures *)

Lemma last_ring {A : Type} (p y : list A) (c1 c2 a : A) :
  list.last (p ++ c1 :: y ++ [c2; a]) = Some a.
Proof.
  change (p ++ c1 :: y ++ [c2; a]) with (p ++ [c1] ++ y ++ [c2] ++ [a]).
  rewrite !app_assoc. apply last_snoc.
Qed.

Lemma head_ring {A : Type} (p k : list A) (a : A) :
  head p = Some a → head (p ++ k) = Some a.
Proof. by destruct p. Qed.

Lemma close_ring_well_formed (px pz x z : list Qc) (ring : Outline) :
  length px = length pz → length x = length z →
  close_ring px pz x z = Ok ring → well_formed ring.
Proof.
  intros Hp Hx. unfold close_ring.
  destruct (head x) as [x0|]; [|done].
  destruct (head px) as [px0|] eqn:Hpx; [|done].
  destruct (head pz) as [pz0|] eqn:Hpz; [|done].
  destruct (head z) as [z0|]; [|done].
  destruct (list.last x) as [xl|]; [|done].
  destruct (list.last px) as [pxl|]; [|done].
  destruct (list.last pz) as [pzl|]; [|done].
  destruct (list.last z) as [zl|]; [|done].
  intros [= <-]. unfold well_formed.
  rewrite !last_ring, !(head_ring _ _ _ Hpx), !(head_ring _ _ _ Hpz).
  repeat split; [|by eexists].
  repeat (rewrite length_app || rewrite length_rev || simpl). lia.
Qed.

Lemma cut_loop_well_formed (axis points : Z) (l : list Element) :
  ∀ z0 pending,
    (∀ px pz, pending = Some (px, pz) → length px = length pz) →
    Forall well_formed (fst (cut_loop axis points z0 pending l)).
Proof.
  induction l as [|e l IH]; intros z0 pending Hp; simpl; [constructor|].
  destruct (column axis) as [col|]; [|constructor].
  set (xyz := shift_z (z0 + distance e) <$>
                Element_transform_from e (Element_surface_cut e axis points)).
  assert (length (col <$> xyz) = length (z_of <$> xyz)) as Hlen
    by (by rewrite !length_fmap).
  destruct (material_or_None e) as [mat|].
  - assert (∀ px pz,
              (if solid mat then Some (col <$> xyz, z_of <$> xyz) else None)
              = Some (px, pz) → length px = length pz) as Hp'.
    { intros px pz. destruct (solid mat); [|done]. by intros [= <- <-]. }
    destruct pending as [[px pz]|].
    + destruct (close_ring px pz _ _) as [ring|] eqn:Hring; [|constructor].
      unfold yield. simpl. constructor; [|by apply IH].
      eapply close_ring_well_formed; [by apply Hp | exact Hlen | exact Hring].
    + destruct (solid mat); [by apply IH|].
      unfold yield. simpl. constructor; [done | by apply IH].
  - unfold yield. simpl. constructor; [done | by apply IH].
Qed.

(** Every outline that [surfaces_cut] yields has two rows of one length, and
    every ring among them is closed: it is not empty and its last point is
    its first. *)
Theorem surfaces_cut_well_formed (axis points : Z) (s : System) :
  Forall well_formed (fst (surfaces_cut axis points s)).
Proof. apply cut_loop_well_formed. done. Qed.

Lemma cut_loop_count (axis points : Z) (l : list Element) :
  ∀ z0 pending,
    (length (fst (cut_loop axis points z0 pending l)) ≤ length l)%nat
    ∧ (snd (cut_loop axis points z0 pending l) = None
       ∨ snd (cut_loop axis points z0 pending l) = Some IndexError).
Proof.
  induction l as [|e l IH]; intros z0 pending; simpl; [by auto|].
  assert (∀ ex, column axis = Raise ex → ex = IndexError) as Hcol.
  { unfold column. intros ex. repeat destruct (decide _); congruence. }
  assert (∀ px pz x z ex, close_ring px pz x z = Raise ex → ex = IndexError)
    as Hring.
  { intros px pz x z ex. unfold close_ring.
    repeat (destruct (head _) || destruct (list.last _)); congruence. }
  destruct (column axis) as [col|ex] eqn:Hc;
    [|simpl; split; [lia | right; f_equal; by apply Hcol]].
  destruct (material_or_None e) as [mat|];
    [destruct pending as [[px pz]|];
       [destruct (close_ring px pz _ _) as [ring|ex] eqn:Hr;
          [|simpl; split; [lia | right; f_equal; by eapply Hring]]
       |destruct (solid mat)]|];
    unfold yield; simpl;
    match goal with
    | |- context [cut_loop axis points ?z ?p l] =>
        destruct (IH z p) as [H1 H2]
    end; (split; [lia | exact H2]).
Qed.

(** [surfaces_cut] yields at most one outline for each element, and the only
    exception that ends it is [IndexError]. *)
Theorem surfaces_cut_count (axis points : Z) (s : System) :
  (length (fst (surfaces_cut axis points s)) ≤ length (items s))%nat
  ∧ (snd (surfaces_cut axis points s) = None
     ∨ snd (surfaces_cut axis points s) = Some IndexError).
Proof. apply cut_loop_count. Qed.

(** An [axis] that is no column of the array makes [surfaces_cut] raise
    [IndexError] at the first element, before any outline; on an empty
    train nothing is indexed and nothing is raised. *)
Theorem surfaces_cut_bad_axis (axis points : Z) (s : System) :
  ¬ (-3 ≤ axis < 3)%Z →
  surfaces_cut axis points s
  = ([], if decide (items s = []) then None else Some IndexError).
Proof.
  intros Ha. unfold surfaces_cut.
  destruct (items s) as [|e l]; [done|]. simpl.
  assert (column axis = Raise IndexError) as ->; [|done].
  unfold column, wrap_index.
  repeat (destruct (decide _); try lia); done.
Qed.

Lemma close_ring_is_ring (px pz x z : list Qc) (ring : Outline) :
  close_ring px pz x z = Ok ring → is_open ring = false.
Proof.
  unfold close_ring.
  repeat (destruct (head _) || destruct (list.last _)); try done.
  by intros [= <-].
Qed.

Lemma cut_loop_same_rows (axis points : Z) (l : list Element) :
  column axis = Ok z_of →
  ∀ z0 pending,
    Forall same_rows (fst (cut_loop axis points z0 pending l)).
Proof.
  intros Hc. induction l as [|e l IH]; intros z0 pending; simpl;
    [constructor|].
  rewrite Hc.
  destruct (material_or_None e) as [mat|].
  - destruct pending as [[px pz]|].
    + destruct (close_ring px pz _ _) as [ring|] eqn:Hr; [|constructor].
      unfold yield. simpl. constructor; [|apply IH].
      apply close_ring_is_ring in Hr. by destruct ring.
    + destruct (solid mat); [apply IH|].
      unfold yield. simpl. constructor; [done | apply IH].
  - unfold yield. simpl. constructor; [done | apply IH].
Qed.

(** With [axis = 2] (or [-1]) the row [x] is a view of the same column as
    the row [z], and takes the shift [z += z0] with it: in every open curve
    the two rows are the same. *)
Theorem surfaces_cut_axis_2 (axis points : Z) (s : System) :
  axis = 2%Z ∨ axis = (-1)%Z →
  Forall same_rows (fst (surfaces_cut axis points s)).
Proof.
  intros Ha. apply cut_loop_same_rows. by destruct Ha as [-> | ->].
Qed.

(** ** The paraxial matrix chain: sub-ranges and failures *)

(** The chain over any sub-range [1 <= a < k <= b <= N] splits at [k]:
    provided the index of the last pair that [paraxial_matrices(l, a, k)]
    yields is [self[k - 1].refractive_index(l)], the matrix from [a] to [b]
    is the matrix from [a] to [k] multiplied on the left, in turn, by the
    matrices that [paraxial_matrices(l, k, b)] yields; with a product that is
    associative and has the identity as unit this is the matrix from [k] to
    [b] times the matrix from [a] to [k]. *)
Theorem paraxial_compose (l : Qc) (a k b : nat) (s : System) (e : Element)
    (front_ms : list (Qc * Matrix)) :
  (1 ≤ a < k)%nat → (k ≤ b ≤ length (items s))%nat →
  items s !! (k - 1)%nat = Some e →
  paraxial_matrices l (Z.of_nat a) (Some (Z.of_nat k)) s = Ok front_ms →
  fst <$> list.last front_ms = Some (Element_refractive_index e l) →
  ∃ front rear_ms rear whole,
    paraxial_matrix l (Z.of_nat a) (Some (Z.of_nat k)) s = Ok front
    ∧ paraxial_matrices l (Z.of_nat k) (Some (Z.of_nat b)) s = Ok rear_ms
    ∧ paraxial_matrix l (Z.of_nat k) (Some (Z.of_nat b)) s = Ok rear
    ∧ paraxial_matrix l (Z.of_nat a) (Some (Z.of_nat b)) s = Ok whole
    ∧ whole = foldl (λ m r, np_dot (snd r) m) front rear_ms
    ∧ (exact_product → np_dot rear front = whole).
Proof. apply chain_split. Qed.

(** [paraxial_matrices] raises [IndexError], and [paraxial_matrix] with it,
    exactly when [start - 1] is no index of the train (so always on an empty
    train); otherwise it yields one pair for each element of the range, and
    the matrix of an empty range is the identity. *)
Theorem paraxial_matrices_raises (l : Qc) (start : Z) (stop : option Z)
    (s : System) :
  (¬ (- Z.of_nat (length (items s)) ≤ start - 1 < Z.of_nat (length (items s)))%Z
   → paraxial_matrices l start stop s = Raise IndexError
     ∧ paraxial_matrix l start stop s = Raise IndexError)
  ∧ ((- Z.of_nat (length (items s)) ≤ start - 1
      < Z.of_nat (length (items s)))%Z
     → (∃ ms, paraxial_matrices l start stop s = Ok ms
              ∧ length ms = length (paraxial_range start stop s))
       ∧ (paraxial_range start stop s = [] →
          paraxial_matrix l start stop s = Ok eye2)).
Proof.
  assert (∀ n es, length (chain l n es) = length es) as Hlen.
  { intros n es. revert n. induction es as [|x es IH]; intros n; simpl;
      [done | by rewrite IH]. }
  unfold paraxial_matrix, paraxial_matrices, getitem, wrap_index.
  split; intros Hs.
  - destruct (decide (start - 1 < 0)%Z).
    + destruct (decide _) as [|Hn]; [done|].
      rewrite lookup_ge_None_2 by lia. done.
    + destruct (decide _) as [|Hn]; [done|].
      rewrite lookup_ge_None_2 by lia. done.
  - assert (∃ i, (if decide (start - 1 < 0)%Z
                  then (start - 1 + Z.of_nat (length (items s)))%Z
                  else (start - 1)%Z) = Z.of_nat i
                 ∧ (i < length (items s))%nat) as (i & -> & Hi).
    { destruct (decide _).
      - exists (Z.to_nat (start - 1 + Z.of_nat (length (items s)))). lia.
      - exists (Z.to_nat (start - 1)). lia. }
    destruct (decide _) as [|_]; [lia|]. rewrite Nat2Z.id.
    destruct (lookup_lt_is_Some_2 _ _ Hi) as [e ->]. simpl. split.
    + eexists. split; [done|]. apply Hlen.
    + by intros ->.
Qed.

(** With [start = 0] the running index is seeded from the last element of
    the train ([self[-1]]), and the chain then runs over the whole train,
    its first element included. *)
Theorem paraxial_start_0 (l : Qc) (s : System) (e : Element) :
  list.last (items s) = Some e →
  paraxial_matrices l 0 None s
  = Ok (chain l (Element_refractive_index e l) (items s)).
Proof.
  intros He. unfold paraxial_matrices, paraxial_range, stop_or_len.
  change (0 - 1)%Z with (-1)%Z. rewrite (getitem_last _ _ He). simpl.
  rewrite (slice_nonneg _ 0 (length (items s))) by lia.
  by rewrite drop_0, Nat.sub_0_r, firstn_all.
Qed.

(** ** Construction and reversal against the roles *)

(** The default train fills the three roles: [object] and [image] return its
    ends and the aperture stands at index 1. *)
Theorem default_train_roles (d : arg string) (sc : arg float)
    (w : arg (list Qc)) :
  let s := System_init (Given None) d sc w in
  object s = Ok (new_Object false)
  ∧ image s = Ok new_Image
  ∧ aperture s = Some new_Aperture
  ∧ aperture_index s = Ok 1%nat.
Proof.
  simpl. split; [done|]. split; [done|].
  assert (aperture (System_init (Given None) d sc w) = Some new_Aperture)
    as Hap by done.
  split; [done|]. unfold aperture_index. rewrite Hap. simpl.
  destruct (decide (Some (new_Object false) = Some new_Aperture)) as [H|_].
  - assert (cls (new_Object false) = cls new_Aperture) as Hc by congruence.
    done.
  - by destruct (decide (Some new_Aperture = Some new_Aperture)).
Qed.

Lemma head_fmap {A B : Type} (f : A → B) (l : list A) :
  head (f <$> l) = f <$> head l.
Proof. by destruct l. Qed.

Lemma last_rev {A : Type} (l : list A) : list.last (rev l) = head l.
Proof. by rewrite <- head_rev, rev_involutive. Qed.

Lemma fmap_shift_same {A : Type} (f : Element → A) (l : list Element) :
  (∀ d e, f (set_distance d e) = f e) →
  (∀ m e, is_Some (material e) → f (set_material m e) = f e) →
  (∀ d, f <$> shift_distances d l = f <$> l)
  ∧ (∀ m, f <$> shift_materials m l = f <$> l).
Proof.
  intros Hd Hm. split.
  - induction l as [|e l IH]; intros d; simpl; [done|]. by rewrite Hd, IH.
  - induction l as [|e l IH]; intros m; simpl; [done|].
    destruct (material e) eqn:He; simpl; rewrite ?IH; [|done].
    rewrite Hm; [done|]. by rewrite He.
Qed.

(** An attribute of the elements that neither loop of [reverse] writes, and
    that the elements' own [reverse] keeps, comes out in reversed order. *)
Lemma reverse_fmap {A : Type} (f : Element → A) (s : System) :
  (∀ d e, f (set_distance d e) = f e) →
  (∀ m e, is_Some (material e) → f (set_material m e) = f e) →
  (∀ e, f (Element_reverse e) = f e) →
  f <$> items (reverse s) = rev (f <$> items s).
Proof.
  intros Hd Hm Hr. unfold reverse. simpl.
  rewrite fmap_rev.
  rewrite (proj2 (fmap_shift_same f _ Hd Hm)), <- fmap_rev, rev_involutive.
  rewrite (proj1 (fmap_shift_same f _ Hd Hm)), <- list_fmap_compose.
  rewrite (list_fmap_ext (f ∘ Element_reverse) f (rev (items s)))
    by (intros; apply Hr).
  apply fmap_rev.
Qed.

(** [reverse] turns the order of the classes round, so that it swaps the
    two ends: on a train with its [Image] last, [object] fails its assertion
    after the call, and on a train with its [Object] first, [image] does
    (the elements' own [reverse] keeping the class). *)
Theorem reverse_roles (s : System) (e : Element) :
  (∀ e, cls (Element_reverse e) = cls e) →
  cls <$> items (reverse s) = rev (cls <$> items s)
  ∧ (image s = Ok e → object (reverse s) = Raise AssertionError)
  ∧ (object s = Ok e → image (reverse s) = Raise AssertionError).
Proof.
  intros Hc.
  assert (cls <$> items (reverse s) = rev (cls <$> items s)) as Hcls
    by (by apply reverse_fmap).
  split; [done|]. split.
  - intros Hi.
    assert (cls <$> list.last (items s) = Some Image) as Hx.
    { unfold image in Hi. rewrite getitem_minus_1 in Hi.
      destruct (list.last (items s)) as [x|]; [|done]. simpl in *.
      unfold isinstance in Hi. destruct (bool_decide_reflect (cls x = Image));
        [by f_equal | done]. }
    apply (f_equal head) in Hcls.
    rewrite head_rev, head_fmap, fmap_last, Hx in Hcls.
    unfold object. destruct (items (reverse s)) as [|y l]; [done|].
    rewrite getitem_0. simpl in Hcls. injection Hcls as Hy.
    cbn [mbind result_bind]. unfold isinstance. rewrite Hy. done.
  - intros Ho.
    assert (cls <$> head (items s) = Some Object) as Hx.
    { unfold object in Ho.
      destruct (items s) as [|x l]; [by rewrite getitem_nil in Ho|].
      rewrite getitem_0 in Ho. simpl in *.
      unfold isinstance in Ho. destruct (bool_decide_reflect (cls x = Object));
        [by f_equal | done]. }
    apply (f_equal list.last) in Hcls.
    rewrite last_rev, fmap_last, head_fmap, Hx in Hcls.
    unfold image. rewrite getitem_minus_1.
    destruct (list.last (items (reverse s))) as [y|]; [|done].
    simpl in Hcls. injection Hcls as Hy.
    cbn [mbind result_bind]. unfold isinstance. rewrite Hy. done.
Qed.

Lemma last_omap_lookup {A B : Type} (f : A → option B) (l : list A) (m : B) :
  list.last (omap f l) = Some m → ∃ i x, l !! i = Some x ∧ f x = Some m.
Proof.
  induction l as [|x l IH]; [done|].
  change (omap f (x :: l))
    with (match f x with Some y => y :: omap f l | None => omap f l end).
  destruct (f x) as [y|] eqn:Hy.
  - destruct (list.last (omap f l)) as [m'|] eqn:Hm'.
    + rewrite last_cons, Hm'. intros [= <-].
      destruct (IH eq_refl) as (i & x' & Hi & Hx'). by exists (S i), x'.
    + rewrite last_cons, Hm'. intros [= <-]. by exists 0%nat, x.
  - intros H. destruct (IH H) as (i & x' & Hi & Hx'). by exists (S i), x'.
Qed.

(** On a train with elements that have a material attribute between two ends
    that have none, [fix_sizes] raises [AttributeError] after [reverse]:
    the call leaves [None] in the material of a surface on which
    [resize_convex] then reads [solid] (the elements' own [reverse] keeping
    the attribute). *)
Theorem fix_sizes_after_reverse (s : System) :
  (∀ e, material (Element_reverse e) = material e) →
  has_material <$> head (items s) = Some false →
  has_material <$> list.last (items s) = Some false →
  Exists (λ e, has_material e = true) (items s) →
  snd (fix_sizes (reverse s)) = Some AttributeError.
Proof.
  intros Hm Hhead Hlast Hex.
  apply resize_convex_raises.
  assert (has_material <$> items (reverse s)
          = rev (has_material <$> items s)) as Hhas.
  { apply reverse_fmap; [done | | by intros; unfold has_material; rewrite Hm].
    intros m e [m' He]. unfold has_material. simpl. by rewrite He. }
  pose proof (reverse_materials_eq s Hm) as Hmat.
  assert (omap material (items s) ≠ []) as Hne.
  { apply Exists_exists in Hex as (x & Hx & Hhx).
    apply list_elem_of_split in Hx as (l1 & l2 & ->).
    rewrite omap_app. simpl. unfold has_material in Hhx.
    destruct (material x); [|done]. by destruct (omap material l1). }
  destruct (list.last (omap material (items (reverse s)))) as [m|] eqn:Hl.
  - pose proof (reverse_last_carrier _ _ Hl) as ->.
    apply last_omap_lookup in Hl as (i & x & Hi & Hx).
    assert (has_material x = true) as Hhx by (unfold has_material; by rewrite Hx).
    exists i. split; [|split].
    + destruct i; [|lia].
      apply (f_equal head) in Hhas.
      rewrite head_rev, head_fmap, fmap_last, Hlast in Hhas.
      destruct (items (reverse s)); simpl in *; congruence.
    + assert (i < length (items (reverse s)))%nat as Hlt
        by (by eapply lookup_lt_Some).
      destruct (decide (i + 1 = length (items (reverse s)))%nat) as [Heq|];
        [|lia].
      apply (f_equal list.last) in Hhas.
      rewrite last_rev, fmap_last, head_fmap, Hhead, last_lookup in Hhas.
      replace (pred (length (items (reverse s)))) with i in Hhas by lia.
      rewrite Hi in Hhas. simpl in Hhas. congruence.
    + unfold holds_None. by rewrite Hi; simpl; rewrite Hx.
  - apply last_None in Hl. rewrite Hl in Hmat. simpl in Hmat.
    destruct (omap material (items s)); [done|]. simpl in Hmat. done.
Qed.

End properties.


(** * The properties on the sample trains *)

(** A closed decidable statement, settled by evaluation. *)
Ltac by_vm_compute := apply (bool_decide_unpack _); vm_compute; exact I.

(** ** The sample collaborators *)

Lemma sample_reverse_involutive (e : Element) :
  sample_reverse (sample_reverse e) = e.
Proof.
  destruct e as [c f d r a [k|] m]; unfold sample_reverse; simpl; [|done].
  by rewrite Qcopp_involutive.
Qed.

Lemma sample_reverse_set_distance (d : Qc) (e : Element) :
  sample_reverse (set_distance d e) = set_distance d (sample_reverse e).
Proof. done. Qed.

Lemma sample_reverse_set_material (m : option Material) (e : Element) :
  sample_reverse (set_material m e) = set_material m (sample_reverse e).
Proof. done. Qed.

(** The sample [rescale] is multiplicative at two factors whose product
    binary64 computes without rounding. *)
Lemma sample_rescale_multiplicative (x y : float) (e : Element) :
  Qc_of_float (x * y)%float = Qc_of_float x * Qc_of_float y →
  Qc_of_float x ≠ 0 → Qc_of_float y ≠ 0 →
  sample_rescale y (sample_rescale x e) = sample_rescale (x * y)%float e.
Proof.
  intros Hxy Hx Hy.
  destruct e as [c f d r a [k|] m]; unfold sample_rescale; simpl;
    rewrite Hxy; f_equal; try ring.
  f_equal. by field.
Qed.

(** The product of exact arithmetic is associative, with the identity as
    unit. *)
Lemma exact_dot_assoc (a b c : Matrix) :
  exact_dot a (exact_dot b c) = exact_dot (exact_dot a b) c.
Proof. destruct a, b, c. unfold exact_dot. simpl. f_equal; ring. Qed.

Lemma exact_dot_eye2_l (a : Matrix) : exact_dot eye2 a = a.
Proof. destruct a. unfold exact_dot, eye2. simpl. f_equal; ring. Qed.

Lemma exact_dot_eye2_r (a : Matrix) : exact_dot a eye2 = a.
Proof. destruct a. unfold exact_dot, eye2. simpl. f_equal; ring. Qed.

Lemma sample_exact_product : exact_product.
Proof.
  split; [|split].
  - apply exact_dot_assoc.
  - apply exact_dot_eye2_l.
  - apply exact_dot_eye2_r.
Qed.

(** ** Construction *)

(** C4, the claim refuted: a train constructed without an element list is
    empty, since the parameter defaults to the empty list. *)
Lemma System_init_omitted_empty :
  items (System_init Omitted Omitted Omitted Omitted) = []
  ∧ items (System_init Omitted Omitted Omitted Omitted)
    ≠ [new_Object false; new_Aperture; new_Image].
Proof. split; done. Qed.

(** ** Role setters *)

Lemma role_setters_witness :
  (set_object (marker Object 0 1) markers
     = Ok (set_items (<[0%nat := marker Object 0 1]> (items markers)) markers)
   ∧ length (<[0%nat := marker Object 0 1]> (items markers)) = 3%nat)
  ∧ (set_object (marker Object 0 1) two_stops
     = Ok (set_items (marker Object 0 1 :: items two_stops) two_stops)
     ∧ length (marker Object 0 1 :: items two_stops) = 4%nat)
  ∧ (set_image (marker Image 2 1) markers
     = Ok (set_items (<[2%nat := marker Image 2 1]> (items markers)) markers)
     ∧ length (<[2%nat := marker Image 2 1]> (items markers)) = 3%nat)
  ∧ (set_image (marker Image 2 1) two_stops
     = Ok (set_items (items two_stops ++ [marker Image 2 1]) two_stops)
     ∧ length (items two_stops ++ [marker Image 2 1]) = 4%nat).
Proof.
  split; [|split; [|split]].
  - apply (role_setters markers (marker Object 0 1)
             (marker Object 0 (qc 5 1))); reflexivity.
  - apply (role_setters two_stops (marker Object 0 1)
             (surface 0 (qc 8 1) 0 (Some air))); reflexivity.
  - apply (role_setters markers (marker Image 2 1)
             (marker Image (qc 20 1) (qc 3 1))); reflexivity.
  - apply (role_setters two_stops (marker Image 2 1)
             (marker Aperture 1 (qc 3 1))); reflexivity.
Defined.

(** ** The aperture *)

Lemma aperture_first_match_witness :
  (aperture two_stops = Some (marker Aperture 2 (qc 4 1))
   ∧ aperture_index two_stops = Ok 1%nat)
  ∧ (aperture singlet = None ∧ aperture_index singlet = Raise ValueError).
Proof.
  split.
  - apply (aperture_first_match two_stops); [reflexivity.. |].
    intros j e' Hj He'. destruct j as [|j]; [|lia].
    simpl in He'. injection He' as <-. reflexivity.
  - apply (aperture_first_match singlet).
    intros e He. unfold singlet, train in He. simpl in He.
    repeat (apply elem_of_cons in He as [->|He]; [reflexivity|]).
    by apply elem_of_nil in He.
Defined.

(** ** surfaces_cut *)

Lemma surfaces_cut_markers_witness :
  ∃ x1 z1 x2 z2 x3 z3,
    surfaces_cut 1 3 markers
      = ([OpenCurve x1 z1; OpenCurve x2 z2; OpenCurve x3 z3], None).
Proof.
  apply (surfaces_cut_markers 1 3 markers (marker Object 0 (qc 5 1))
           (marker Aperture (qc 10 1) (qc 4 1))
           (marker Image (qc 20 1) (qc 3 1)));
    (lia || reflexivity).
Defined.

Lemma surfaces_cut_no_material_witness :
  ∃ curves,
    surfaces_cut 1 3 markers = (curves, None)
    ∧ length curves = 3%nat
    ∧ Forall (λ o, is_open o = true) curves.
Proof.
  apply (surfaces_cut_no_material 1 3 markers); [lia|].
  repeat constructor.
Defined.

(** ** The paraxial matrix chain *)

Lemma paraxial_stop_zero_witness :
  let rear := surface (qc 4 1) (qc 8 1) (qc (-1) 64) (Some air) in
  let img := marker Image (qc 64 1) (qc 3 1) in
  let front := surface (qc 8 1) (qc 8 1) (qc 1 64) (Some dense) in
  paraxial_range 2 (Some 0%Z) dyadic_lens = [rear; img]
  ∧ ∃ ms,
      paraxial_matrices lambda_d 2 (Some 0%Z) dyadic_lens = Ok ms
      ∧ paraxial_matrices lambda_d 2 None dyadic_lens = Ok ms
      ∧ length ms = 2%nat
      ∧ (∀ i e, items dyadic_lens !! (2 + i)%nat = Some e →
           ms !! i
           = Some (Element_paraxial_matrix e
                     (index_before (Element_refractive_index front lambda_d)
                        ms i) lambda_d))
      ∧ paraxial_matrix lambda_d 2 (Some 0%Z) dyadic_lens
        = Ok (foldl (λ m r, np_dot (snd r) m) eye2 ms).
Proof.
  destruct (paraxial_stop_zero lambda_d 2 dyadic_lens)
    as (H1 & _ & _ & H4 & H5 & _).
  split.
  - apply H4. simpl. lia.
  - destruct (H5 _ eq_refl) as (ms & Hms & Hlen & Hpairs & Hfold).
    exists ms. split; [exact Hms|]. split; [by rewrite <- H1|].
    split; [exact Hlen|]. split; [exact Hpairs | exact Hfold].
Defined.

(** In [dyadic_lens] the element before the split is the front surface of
    the lens; in [dyadic_stopped] it is the stop, which has no material and
    hands on the index that it receives. *)
Lemma paraxial_chain_split_witness :
  (∃ front rear_ms rear whole,
     paraxial_matrix lambda_d 1 (Some 2%Z) dyadic_lens = Ok front
     ∧ paraxial_matrices lambda_d 2 (Some 4%Z) dyadic_lens = Ok rear_ms
     ∧ paraxial_matrix lambda_d 2 (Some 4%Z) dyadic_lens = Ok rear
     ∧ paraxial_matrix lambda_d 1 (Some 4%Z) dyadic_lens = Ok whole
     ∧ whole = foldl (λ m r, np_dot (snd r) m) front rear_ms
     ∧ np_dot rear front = whole)
  ∧ (∃ front rear_ms rear whole,
       paraxial_matrix lambda_d 1 (Some 2%Z) dyadic_stopped = Ok front
       ∧ paraxial_matrices lambda_d 2 (Some 5%Z) dyadic_stopped = Ok rear_ms
       ∧ paraxial_matrix lambda_d 2 (Some 5%Z) dyadic_stopped = Ok rear
       ∧ paraxial_matrix lambda_d 1 (Some 5%Z) dyadic_stopped = Ok whole
       ∧ whole = foldl (λ m r, np_dot (snd r) m) front rear_ms
       ∧ np_dot rear front = whole).
Proof.
  split.
  - destruct (paraxial_chain_split lambda_d 2 dyadic_lens
                (surface (qc 8 1) (qc 8 1) (qc 1 64) (Some dense))
                (chain lambda_d
                   (Element_refractive_index (marker Object 0 (qc 5 1))
                      lambda_d)
                   [surface (qc 8 1) (qc 8 1) (qc 1 64) (Some dense)]))
      as (front & rear_ms & rear & whole & H1 & H2 & H3 & H4 & H5 & H6);
      [simpl; lia | reflexivity | reflexivity | reflexivity |].
    exists front, rear_ms, rear, whole.
    split; [exact H1|]. split; [exact H2|]. split; [exact H3|].
    split; [exact H4|]. split; [exact H5|]. exact (H6 sample_exact_product).
  - destruct (paraxial_chain_split lambda_d 2 dyadic_stopped
                (marker Aperture (qc 2 1) (qc 4 1))
                (chain lambda_d
                   (Element_refractive_index (marker Object 0 (qc 5 1))
                      lambda_d)
                   [marker Aperture (qc 2 1) (qc 4 1)]))
      as (front & rear_ms & rear & whole & H1 & H2 & H3 & H4 & H5 & H6);
      [simpl; lia | reflexivity | reflexivity | reflexivity |].
    exists front, rear_ms, rear, whole.
    split; [exact H1|]. split; [exact H2|]. split; [exact H3|].
    split; [exact H4|]. split; [exact H5|]. exact (H6 sample_exact_product).
Defined.

(** C1, the claim refuted: on the lens [dyadic_lens], split at [k = 2], the
    product in the order front times rear is not the matrix of the whole
    chain.  The entries are dyadic rationals of a few bits: binary64
    computes every matrix and product of this example without rounding. *)
Lemma paraxial_split_order_counterexample :
  let front := mkMatrix 1 (qc 8 1) (qc (-1) 128) (qc 7 16) in
  let rear := mkMatrix 0 (qc 128 1) (qc (-1) 64) (qc 31 16) in
  let whole := mkMatrix (-1) (qc 56 1) (qc (-63) 2048) (qc 185 256) in
  length (items dyadic_lens) = 4%nat
  ∧ paraxial_matrix lambda_d 1 (Some 2%Z) dyadic_lens = Ok front
  ∧ paraxial_matrix lambda_d 2 (Some 4%Z) dyadic_lens = Ok rear
  ∧ paraxial_matrix lambda_d 1 (Some 4%Z) dyadic_lens = Ok whole
  ∧ np_dot front rear
    = mkMatrix (qc (-1) 8) (qc 287 2) (qc (-7) 1024) (qc (-39) 256)
  ∧ np_dot rear front = whole
  ∧ np_dot front rear ≠ whole.
Proof. repeat split; by_vm_compute. Qed.

(** In the order rear times front the identity still needs the hypothesis on
    the index handed on: the flat surface of [dyadic_relay] holds no material
    object, hands on the index it received (2) and reports the index 1, so
    that the rear part run on its own starts from another index than the
    rear part of the whole chain. *)
Remark paraxial_split_needs_index :
  ∃ front rear_ms rear whole,
    paraxial_matrix lambda_d 1 (Some 3%Z) dyadic_relay = Ok front
    ∧ paraxial_matrices lambda_d 3 (Some 5%Z) dyadic_relay = Ok rear_ms
    ∧ paraxial_matrix lambda_d 3 (Some 5%Z) dyadic_relay = Ok rear
    ∧ paraxial_matrix lambda_d 1 (Some 5%Z) dyadic_relay = Ok whole
    ∧ whole ≠ foldl (λ m r, np_dot (snd r) m) front rear_ms
    ∧ np_dot rear front ≠ whole.
Proof.
  eexists _, _, _, _. split; [reflexivity|]. split; [reflexivity|].
  split; [reflexivity|]. split; [reflexivity|]. split.
  - intros H. apply (f_equal m11) in H. vm_compute in H. discriminate H.
  - intros H. apply (f_equal m11) in H. vm_compute in H. discriminate H.
Qed.

(** ** rescale *)

Lemma rescale_compose_witness :
  rescale (Some 2%float) singlet ≫= rescale (Some 4%float)
  = Ok (mkSystem (Element_rescale (2 * 4)%float <$> items singlet)
          (description singlet) (scale singlet / 2 / 4)%float
          (wavelengths singlet))
  ∧ rescale (Some (2 * 4)%float) singlet
    = Ok (mkSystem (Element_rescale (2 * 4)%float <$> items singlet)
            (description singlet) (scale singlet / (2 * 4))%float
            (wavelengths singlet))
  ∧ rescale (Some 2%float) singlet ≫= rescale (Some 4%float)
    = rescale (Some (2 * 4)%float) singlet.
Proof.
  assert (∀ e, e ∈ items singlet →
            Element_rescale 4%float (Element_rescale 2%float e)
            = Element_rescale (2 * 4)%float e) as Hmul.
  { intros e _. apply sample_rescale_multiplicative; by_vm_compute. }
  destruct (rescale_compose singlet 2%float 4%float eq_refl eq_refl Hmul)
    as (H1 & H2 & H3).
  split; [exact H1|]. split; [exact H2|]. exact (H3 eq_refl eq_refl).
Defined.

(** C5, the claim refuted.  On the train [singlet_metres], of scale 1, the
    factors 3 and 11 are positive and the elements' [rescale] is
    multiplicative at them; [rescale(3)] followed by [rescale(11)] leaves
    the scale [1/3/11 = 0.0303030303030303], the single call [rescale(33)]
    leaves [1/33 = 0.030303030303030304], while the elements agree.  On the
    empty train, which has no element, the positive factors [2^-600] and
    [2^-600] have the product 0: the two calls return, the single call
    raises. *)
Lemma rescale_compose_rounds :
  let tiny := 0x1p-600%float in
  let empty := System_init Omitted Omitted Omitted Omitted in
  ((0 <? 3)%float = true ∧ (0 <? 11)%float = true
   ∧ (∀ e, Element_rescale 11%float (Element_rescale 3%float e)
           = Element_rescale (3 * 11)%float e)
   ∧ ∃ two one,
       rescale (Some 3%float) singlet_metres ≫= rescale (Some 11%float)
       = Ok two
       ∧ rescale (Some (3 * 11)%float) singlet_metres = Ok one
       ∧ items two = items one
       ∧ scale two = (1 / 3 / 11)%float
       ∧ scale one = (1 / 33)%float
       ∧ (scale two =? scale one)%float = false
       ∧ two ≠ one)
  ∧ ((0 <? tiny)%float = true
     ∧ items empty = []
     ∧ (∃ two, rescale (Some tiny) empty ≫= rescale (Some tiny) = Ok two)
     ∧ rescale (Some (tiny * tiny)%float) empty = Raise ZeroDivisionError).
Proof.
  assert (∀ e, Element_rescale 11%float (Element_rescale 3%float e)
               = Element_rescale (3 * 11)%float e) as Hmul.
  { intros e. apply sample_rescale_multiplicative; by_vm_compute. }
  split.
  - split; [reflexivity|]. split; [reflexivity|]. split; [exact Hmul|].
    exists (mkSystem
              (Element_rescale 11%float
               <$> (Element_rescale 3%float <$> items singlet))
              EmptyString (1 / 3 / 11)%float []),
           (mkSystem (Element_rescale (3 * 11)%float <$> items singlet)
              EmptyString (1 / 33)%float []).
    split; [reflexivity|]. split; [reflexivity|].
    split; [|split; [reflexivity|split; [reflexivity|split; [reflexivity|]]]].
    + change (Element_rescale 11%float
              <$> (Element_rescale 3%float <$> items singlet)
              = Element_rescale (3 * 11)%float <$> items singlet).
      rewrite <- list_fmap_compose. apply list_fmap_ext.
      intros i e _. apply Hmul.
    + intros H. apply (f_equal (λ s, (scale s =? 1 / 33)%float)) in H.
      vm_compute in H. discriminate H.
  - split; [reflexivity|]. split; [reflexivity|].
    split; [eexists; reflexivity | reflexivity].
Qed.

(** ** resize_convex *)

(** C3, the code at the cemented doublet: the first call of [fix_sizes]
    grows the radii 6, 7 of the two cemented surfaces to 7, 9, and leaves
    the convex front surface (7) smaller than the surface that closes it
    (9); the second call grows the front surface to 9.  Neither call
    raises. *)
Theorem fix_sizes_twice_doublet :
  radius <$> items doublet
    = [qc 5 1; qc 4 1; qc 6 1; qc 7 1; qc 9 1; qc 3 1]
  ∧ radius <$> items (fst (fix_sizes doublet))
    = [qc 5 1; qc 4 1; qc 7 1; qc 9 1; qc 9 1; qc 3 1]
  ∧ radius <$> items (fst (fix_sizes (fst (fix_sizes doublet))))
    = [qc 5 1; qc 4 1; qc 9 1; qc 9 1; qc 9 1; qc 3 1]
  ∧ snd (fix_sizes doublet) = None
  ∧ snd (fix_sizes (fst (fix_sizes doublet))) = None
  ∧ fst (fix_sizes (fst (fix_sizes doublet))) ≠ fst (fix_sizes doublet).
Proof.
  repeat split; try (vm_compute; reflexivity).
  intros H. apply (f_equal (λ s, radius <$> items s)) in H.
  vm_compute in H. discriminate H.
Qed.

(** ** reverse *)

Lemma reverse_reverse_witness : reverse (reverse singlet_open) = singlet_open.
Proof.
  apply (reverse_reverse singlet_open).
  - apply sample_reverse_involutive.
  - apply sample_reverse_set_distance.
  - apply sample_reverse_set_material.
  - intros e [= <-]. reflexivity.
  - intros m [= <-]. reflexivity.
Defined.

Lemma reverse_twice_witness :
  reverse (reverse singlet)
  = set_items (clear_last_material (zero_first_distance (items singlet)))
      singlet.
Proof.
  apply (reverse_twice singlet).
  - apply sample_reverse_involutive.
  - apply sample_reverse_set_distance.
  - apply sample_reverse_set_material.
Defined.

(** C2, the claim refuted: the elements' [reverse] is involutive, and two
    calls of [reverse] leave the rear surface of the lens [singlet] with the
    material [None] in the place of [air]. *)
Lemma reverse_twice_loses_material :
  (∀ e, Element_reverse (Element_reverse e) = e)
  ∧ material <$> items singlet
    = [None; Some (Some glass); Some (Some air); None]
  ∧ material <$> items (reverse (reverse singlet))
    = [None; Some (Some glass); Some None; None]
  ∧ material <$> items (reverse (reverse singlet))
    ≠ material <$> items singlet.
Proof.
  split; [apply sample_reverse_involutive|].
  split; [vm_compute; reflexivity|].
  split; [vm_compute; reflexivity|].
  intros H. vm_compute in H. discriminate H.
Qed.

(** * The further properties on the sample trains *)

Lemma sample_reverse_distance (e : Element) :
  distance (Element_reverse e) = distance e.
Proof. done. Qed.

Lemma sample_reverse_material (e : Element) :
  material (Element_reverse e) = material e.
Proof. done. Qed.

Lemma sample_reverse_cls (e : Element) : cls (Element_reverse e) = cls e.
Proof. done. Qed.

(** ** The role accessors *)

Lemma role_getters_witness :
  object markers = Ok (marker Object 0 (qc 5 1))
  ∧ image markers = Ok (marker Image (qc 20 1) (qc 3 1))
  ∧ object two_stops = Raise AssertionError
  ∧ image two_stops = Raise AssertionError
  ∧ object (train []) = Raise IndexError.
Proof.
  split; [|split; [|split; [|split]]].
  - exact (proj1 (proj2 (role_getters markers)) _ eq_refl).
  - exact (proj2 (proj2 (role_getters markers)) _ eq_refl).
  - exact (proj1 (proj2 (role_getters two_stops)) _ eq_refl).
  - exact (proj2 (proj2 (role_getters two_stops)) _ eq_refl).
  - exact (proj1 (proj1 (role_getters (train [])) eq_refl)).
Defined.

Lemma role_setters_fail_witness :
  set_object (marker Image 0 1) markers = Raise AssertionError
  ∧ set_image (marker Object 0 1) markers = Raise AssertionError
  ∧ set_object (marker Object 0 1) (train []) = Raise IndexError
  ∧ set_image (marker Image 0 1) (train []) = Raise IndexError.
Proof.
  split; [|split; [|split]].
  - by apply (role_setters_fail markers).
  - by apply (role_setters_fail markers).
  - by apply (role_setters_fail (train [])).
  - by apply (role_setters_fail (train [])).
Defined.

Lemma set_then_get_witness :
  object (set_items (marker Object 0 1 :: items two_stops) two_stops)
    = Ok (marker Object 0 1)
  ∧ image (set_items (items two_stops ++ [marker Image 2 1]) two_stops)
    = Ok (marker Image 2 1).
Proof.
  split.
  - by apply (set_then_get two_stops _ (marker Object 0 1)).
  - by apply (set_then_get two_stops _ (marker Image 2 1)).
Defined.

Lemma role_setters_frame_witness :
  (aperture (set_items (<[0%nat := marker Object 0 1]> (items markers)) markers)
     = aperture markers
   ∧ image (set_items (<[0%nat := marker Object 0 1]> (items markers)) markers)
     = Ok (marker Image (qc 20 1) (qc 3 1)))
  ∧ (aperture (set_items (<[2%nat := marker Image 2 1]> (items markers))
                 markers)
     = aperture markers
     ∧ object (set_items (<[2%nat := marker Image 2 1]> (items markers))
                 markers)
       = Ok (marker Object 0 (qc 5 1))).
Proof.
  split.
  - destruct (proj1 (role_setters_frame markers
        (set_items (<[0%nat := marker Object 0 1]> (items markers)) markers)
        (marker Object 0 1) (marker Image (qc 20 1) (qc 3 1))) eq_refl)
      as [H1 H2].
    split; [exact H1 | by apply H2].
  - destruct (proj2 (role_setters_frame markers
        (set_items (<[2%nat := marker Image 2 1]> (items markers)) markers)
        (marker Image 2 1) (marker Object 0 (qc 5 1))) eq_refl)
      as [H1 H2].
    split; [exact H1 | by apply H2].
Defined.

Lemma role_setters_again_witness :
  set_object (marker Object 0 2)
    (set_items (marker Object 0 1 :: items two_stops) two_stops)
  = Ok (set_items (marker Object 0 2 :: items two_stops) two_stops)
  ∧ length (marker Object 0 2 :: items two_stops) = 4%nat.
Proof.
  by apply (role_setters_again two_stops
              (set_items (marker Object 0 1 :: items two_stops) two_stops)
              (marker Object 0 1) (marker Object 0 2)).
Defined.

(** ** reverse *)

Lemma reverse_distances_witness :
  distance <$> items (reverse singlet) = [0; qc 90 1; qc 4 1; qc 10 1].
Proof.
  rewrite (reverse_distances singlet sample_reverse_distance).
  reflexivity.
Defined.

Lemma reverse_materials_witness :
  rev (omap material (items (reverse singlet))) = [None; Some glass].
Proof.
  rewrite (reverse_materials singlet sample_reverse_material).
  reflexivity.
Defined.

Lemma reverse_thrice_witness :
  reverse (reverse (reverse singlet)) = reverse singlet.
Proof.
  apply (reverse_thrice singlet).
  - apply sample_reverse_involutive.
  - apply sample_reverse_set_distance.
  - apply sample_reverse_set_material.
Defined.

Lemma reverse_roles_witness :
  cls <$> items (reverse singlet) = [Image; Surface; Surface; Object]
  ∧ object (reverse singlet) = Raise AssertionError
  ∧ image (reverse singlet) = Raise AssertionError.
Proof.
  split; [|split].
  - by rewrite (proj1 (reverse_roles singlet (marker Object 0 1)
                         sample_reverse_cls)).
  - exact (proj1 (proj2 (reverse_roles singlet
                           (marker Image (qc 90 1) (qc 3 1))
                           sample_reverse_cls)) eq_refl).
  - exact (proj2 (proj2 (reverse_roles singlet (marker Object 0 (qc 5 1))
                           sample_reverse_cls)) eq_refl).
Defined.

(** ** resize_convex *)

Lemma fix_sizes_untouched_witness :
  items (fst (fix_sizes doublet)) !! 1%nat
    = Some (marker Aperture (qc 5 1) (qc 4 1))
  ∧ items (fst (fix_sizes doublet)) !! 5%nat
    = Some (marker Image (qc 80 1) (qc 3 1)).
Proof.
  split.
  - apply (fix_sizes_untouched doublet 1); [reflexivity | by right; right].
  - apply (fix_sizes_untouched doublet 5); [reflexivity | by right; left].
Defined.

Lemma fix_sizes_radius_bound_witness :
  Forall (λ e, radius e ≤ qc 9 1) (items (fst (fix_sizes doublet))).
Proof.
  apply (fix_sizes_radius_bound doublet (qc 9 1)).
  apply (bool_decide_unpack _). vm_compute. exact I.
Defined.

Lemma fix_sizes_after_reverse_witness :
  snd (fix_sizes (reverse singlet)) = Some AttributeError.
Proof.
  apply (fix_sizes_after_reverse singlet).
  - apply sample_reverse_material.
  - reflexivity.
  - reflexivity.
  - apply Exists_cons_tl, Exists_cons_hd. reflexivity.
Defined.

(** ** surfaces_cut *)

Lemma surfaces_cut_bad_axis_witness :
  surfaces_cut 5 3 markers = ([], Some IndexError)
  ∧ surfaces_cut 5 3 (train []) = ([], None).
Proof.
  split.
  - by rewrite (surfaces_cut_bad_axis 5 3 markers) by lia.
  - by rewrite (surfaces_cut_bad_axis 5 3 (train [])) by lia.
Defined.

Lemma surfaces_cut_axis_2_witness :
  Forall same_rows (fst (surfaces_cut 2 3 markers)).
Proof. apply (surfaces_cut_axis_2 2 3 markers). by left. Defined.

(** ** The paraxial matrix chain *)

Lemma paraxial_compose_witness :
  ∃ front rear_ms rear whole,
    paraxial_matrix lambda_d 2 (Some 3%Z) dyadic_stopped = Ok front
    ∧ paraxial_matrices lambda_d 3 (Some 5%Z) dyadic_stopped = Ok rear_ms
    ∧ paraxial_matrix lambda_d 3 (Some 5%Z) dyadic_stopped = Ok rear
    ∧ paraxial_matrix lambda_d 2 (Some 5%Z) dyadic_stopped = Ok whole
    ∧ whole = foldl (λ m r, np_dot (snd r) m) front rear_ms
    ∧ np_dot rear front = whole.
Proof.
  destruct (paraxial_compose lambda_d 2 3 5 dyadic_stopped
              (surface (qc 8 1) (qc 8 1) (qc 1 64) (Some dense))
              (chain lambda_d
                 (Element_refractive_index
                    (marker Aperture (qc 2 1) (qc 4 1)) lambda_d)
                 [surface (qc 8 1) (qc 8 1) (qc 1 64) (Some dense)]))
    as (front & rear_ms & rear & whole & H1 & H2 & H3 & H4 & H5 & H6);
    [lia | simpl; lia | reflexivity | reflexivity | reflexivity |].
  exists front, rear_ms, rear, whole.
  split; [exact H1|]. split; [exact H2|]. split; [exact H3|].
  split; [exact H4|]. split; [exact H5|]. exact (H6 sample_exact_product).
Defined.

Lemma paraxial_matrices_raises_witness :
  (paraxial_matrices lambda_d 6 None singlet = Raise IndexError
   ∧ paraxial_matrix lambda_d 6 None singlet = Raise IndexError)
  ∧ (∃ ms, paraxial_matrices lambda_d 1 None singlet = Ok ms
           ∧ length ms = length (paraxial_range 1 None singlet))
  ∧ paraxial_matrix lambda_d 4 None singlet = Ok eye2.
Proof.
  split; [|split].
  - apply (paraxial_matrices_raises lambda_d 6 None singlet). simpl. lia.
  - apply (paraxial_matrices_raises lambda_d 1 None singlet). simpl. lia.
  - apply (paraxial_matrices_raises lambda_d 4 None singlet);
      [simpl; lia | reflexivity].
Defined.

Lemma paraxial_start_0_witness :
  paraxial_matrices lambda_d 0 None singlet
  = Ok (chain lambda_d
          (Element_refractive_index (marker Image (qc 90 1) (qc 3 1)) lambda_d)
          (items singlet)).
Proof. by apply (paraxial_start_0 lambda_d singlet). Defined.

